(** * Validators: a shallow embedding of [src/index.ts]

    The library exports a family of _validators_ (functions from an arbitrary
    run-time value to a boolean) and of factories building validators from
    validators.  This development embeds the JavaScript values the validators
    inspect, the host primitives they call ([typeof], property reads,
    [Object.keys], [Object.entries], [parseInt], [RegExp.prototype.test],
    [new URL]), and then every exported validator, line by line.

    A call either returns or throws, so a validator is a function into
    [Completion bool]; the host's URL parser and the prototype chain are
    parameters of the development.  Values are first plain data; the
    inputs whose own code can throw (accessor properties, revoked proxies)
    and arrays with holes or further properties come after, with the
    structural validators on them.  A string is the sequence of its code
    units, taken in U+0000..U+00FF.

    Naming: the source's [$name] is written [v_name] ([$] is not an
    identifier character). *)

From Stdlib Require Import ZArith QArith Ascii String DecimalString.
From stdpp Require Import base decidable option list gmap strings.

#[local] Set Warnings "-clear-no-such-hyp,-register-all".
Local Open Scope string_scope.
Local Open Scope list_scope.

(** ** JavaScript values *)

(** A [number] is an IEEE double; only its classification and order are
    observed by the library, so a finite double is represented by the
    rational it denotes. *)
Inductive number : Type :=
  | NaN
  | Infinity (negative : bool)
  | Finite (q : Q).

(** Run-time values as data.  A symbol is its identity; a function is an
    opaque identity; a plain object is the list of its own enumerable
    string-keyed data properties in [Object.entries] order; an array is the
    dense list of its elements. *)
Inductive Value : Type :=
  | VUndefined
  | VNull
  | VBoolean (b : bool)
  | VNumber (n : number)
  | VString (s : string)
  | VSymbol (id : nat)
  | VBigInt (z : Z)
  | VFunction (id : nat)
  | VObject (props : list (string * Value))
  | VArray (elems : list Value).

(** [typeof val] *)
Definition typeof (val : Value) : string :=
  match val with
  | VUndefined => "undefined"
  | VNull => "object"
  | VBoolean _ => "boolean"
  | VNumber _ => "number"
  | VString _ => "string"
  | VSymbol _ => "symbol"
  | VBigInt _ => "bigint"
  | VFunction _ => "function"
  | VObject _ => "object"
  | VArray _ => "object"
  end.

(** [val == null]: loose equality with [null] holds of [null] and
    [undefined] only. *)
Definition loosely_null (val : Value) : bool :=
  match val with
  | VNull | VUndefined => true
  | _ => false
  end.

(** [val === null] *)
Definition strictly_null (val : Value) : bool :=
  match val with
  | VNull => true
  | _ => false
  end.

(** [val === undefined] *)
Definition strictly_undefined (val : Value) : bool :=
  match val with
  | VUndefined => true
  | _ => false
  end.

(** [Array.isArray(val)] *)
Definition Array_isArray (val : Value) : bool :=
  match val with
  | VArray _ => true
  | _ => false
  end.

(** *** Numbers *)

(** [a <= b] on numbers: false as soon as one side is [NaN]. *)
Definition number_le (a b : number) : bool :=
  match a, b with
  | NaN, _ | _, NaN => false
  | Infinity true, _ => true
  | _, Infinity false => true
  | Infinity false, _ => false
  | _, Infinity true => false
  | Finite p, Finite q => Qle_bool p q
  end.

(** [a >= b] *)
Definition number_ge (a b : number) : bool := number_le b a.

(** [a === b] on numbers: [NaN] differs from itself. *)
Definition number_eq (a b : number) : bool :=
  match a, b with
  | Finite p, Finite q => Qeq_bool p q
  | Infinity s, Infinity t => Bool.eqb s t
  | _, _ => false
  end.

(** [Number.isNaN(n)] *)
Definition Number_isNaN (n : number) : bool :=
  match n with
  | NaN => true
  | _ => false
  end.

Definition number_of_nat (n : nat) : number := Finite (inject_Z (Z.of_nat n)).

(** ** Completions: a call returns or throws *)

Inductive Completion (A : Type) : Type :=
  | Normal (a : A)
  | Throw (e : Value).
Arguments Normal {A} a.
Arguments Throw {A} e.

Definition ret {A} (a : A) : Completion A := Normal a.

Definition bind {A B} (c : Completion A) (k : A -> Completion B) : Completion B :=
  match c with
  | Normal a => k a
  | Throw e => Throw e
  end.

Notation "x <- c ;; k" := (bind c (fun x => k))
  (at level 100, c at next level, right associativity).

(** [try { c } catch (e) { handler e }] *)
Definition try_catch {A} (c : Completion A) (handler : Value -> Completion A)
  : Completion A :=
  match c with
  | Normal a => Normal a
  | Throw e => handler e
  end.

(** [for (const x of xs) { body }] over a loop state [S]. *)
Fixpoint for_of {X S} (xs : list X) (body : S -> X -> Completion S) (s : S)
  : Completion S :=
  match xs with
  | [] => ret s
  | x :: rest => s' <- body s x ;; for_of rest body s'
  end.

(** The [TypeError] raised by the host, e.g. when a non-function is called. *)
Definition TypeError : Value := VObject [("name", VString "TypeError")].

(** ** Property access *)

(** The canonical array index key: [String(i)]. *)
Definition index_key (i : nat) : string :=
  NilZero.string_of_uint (Nat.to_uint i).

(** [Object.entries(val)]: own enumerable string-keyed properties.  The
    library calls it on values of type ["object"] only. *)
Definition Object_entries (val : Value) : list (string * Value) :=
  match val with
  | VObject props => props
  | VArray elems => zip (index_key <$> seq 0 (length elems)) elems
  | _ => []
  end.

(** [Object.keys(val)] *)
Definition Object_keys (val : Value) : list string := fst <$> Object_entries val.

(** The first binding of [key] in an entry list. *)
Fixpoint assoc {A} (key : string) (entries : list (string * A)) : option A :=
  match entries with
  | [] => None
  | (k, a) :: rest => if String.eqb k key then Some a else assoc key rest
  end.

(** The own property [key] of [val], enumerable or not (an array also owns
    [length]). *)
Definition own_property (val : Value) (key : string) : option Value :=
  match assoc key (Object_entries val) with
  | Some v => Some v
  | None =>
      match val with
      | VArray elems =>
          if String.eqb key "length" then Some (VNumber (number_of_nat (length elems)))
          else None
      | _ => None
      end
  end.

(** ** [parseInt] *)

Definition code (c : ascii) : N := N_of_ascii c.

(** White space and line terminators skipped by [parseInt] and matched by
    the regular expression class [\s] (code units up to U+00FF). *)
Definition is_white_space (c : ascii) : bool :=
  let n := code c in
  ((9 <=? n) && (n <=? 13) || (n =? 32) || (n =? 160))%N.

(** The value of [c] as a digit in radix 36, if it is one. *)
Definition digit_value (c : ascii) : option N :=
  let n := code c in
  if ((48 <=? n) && (n <=? 57))%N then Some (n - 48)%N
  else if ((97 <=? n) && (n <=? 122))%N then Some (n - 87)%N
  else if ((65 <=? n) && (n <=? 90))%N then Some (n - 55)%N
  else None.

Definition radix_digit (R : N) (c : ascii) : option N :=
  match digit_value c with
  | Some d => if (d <? R)%N then Some d else None
  | None => None
  end.

(** Leading white space removed. *)
Fixpoint trim_start (s : string) : string :=
  match s with
  | String c s' => if is_white_space c then trim_start s' else s
  | EmptyString => s
  end.

(** The digits of the longest prefix of [s] made of radix-[R] digits. *)
Fixpoint leading_digits (R : N) (s : string) : list N :=
  match s with
  | String c s' =>
      match radix_digit R c with
      | Some d => d :: leading_digits R s'
      | None => []
      end
  | EmptyString => []
  end.

Definition digits_value (R : N) (ds : list N) : N :=
  foldl (fun acc d => (acc * R + d)%N) 0%N ds.

(** An optional sign: [-] gives sign [-1]; the sign character is removed. *)
Definition strip_sign (str : string) : Z * string :=
  match str with
  | String "-" str' => ((-1)%Z, str')
  | String "+" str' => (1%Z, str')
  | _ => (1%Z, str)
  end.

(** With no radix argument: a prefix [0x] or [0X] is removed and selects
    radix 16, otherwise the radix is 10. *)
Definition strip_prefix (str : string) : N * string :=
  match str with
  | String "0" (String "x" str') => (16%N, str')
  | String "0" (String "X" str') => (16%N, str')
  | _ => (10%N, str)
  end.

(** [parseInt(string)] with no radix argument: skip white space, take a
    sign, take a [0x]/[0X] prefix, read the longest run of digits; [NaN]
    when that run is empty. *)
Definition parseInt (inputString : string) : number :=
  let str := trim_start inputString in
  let '(sign, str) := strip_sign str in
  let '(R, str) := strip_prefix str in
  let digits := leading_digits R str in
  match digits with
  | [] => NaN
  | _ => Finite (inject_Z (sign * Z.of_N (digits_value R digits)))
  end.

(** ** Regular expressions *)

(** The pattern language the library's two literals use: characters,
    character classes, concatenation, alternation and iteration.  Capture
    groups do not affect [test] and are written as their contents. *)
Inductive regex : Type :=
  | Void
  | Eps
  | Chr (c : ascii)
  | Class (p : ascii -> bool)
  | Cat (r1 r2 : regex)
  | Alt (r1 r2 : regex)
  | Star (r : regex).

(** [r+] *)
Definition Plus (r : regex) : regex := Cat r (Star r).

(** [r{n}] *)
Fixpoint Repeat (n : nat) (r : regex) : regex :=
  match n with
  | O => Eps
  | S n' => Cat r (Repeat n' r)
  end.

(** The words of a pattern. *)
Inductive matches : regex -> list ascii -> Prop :=
  | matches_Eps : matches Eps []
  | matches_Chr c : matches (Chr c) [c]
  | matches_Class p c : p c = true -> matches (Class p) [c]
  | matches_Cat r1 r2 u v :
      matches r1 u -> matches r2 v -> matches (Cat r1 r2) (u ++ v)
  | matches_Alt_l r1 r2 u : matches r1 u -> matches (Alt r1 r2) u
  | matches_Alt_r r1 r2 u : matches r2 u -> matches (Alt r1 r2) u
  | matches_Star_nil r : matches (Star r) []
  | matches_Star_cons r u v :
      matches r u -> matches (Star r) v -> matches (Star r) (u ++ v).

(** Does [r] match the empty word? *)
Fixpoint nullable (r : regex) : bool :=
  match r with
  | Void => false
  | Eps => true
  | Chr _ => false
  | Class _ => false
  | Cat r1 r2 => nullable r1 && nullable r2
  | Alt r1 r2 => nullable r1 || nullable r2
  | Star _ => true
  end.

(** What is left of [r] once it has read [c]. *)
Fixpoint deriv (c : ascii) (r : regex) : regex :=
  match r with
  | Void => Void
  | Eps => Void
  | Chr c' => if Ascii.eqb c' c then Eps else Void
  | Class p => if p c then Eps else Void
  | Cat r1 r2 =>
      if nullable r1 then Alt (Cat (deriv c r1) r2) (deriv c r2)
      else Cat (deriv c r1) r2
  | Alt r1 r2 => Alt (deriv c r1) (deriv c r2)
  | Star r' => Cat (deriv c r') (Star r')
  end.

(** A pattern with its two assertions: [/^body$/] has both, [/body/] none. *)
Record RegExp : Type := {
  anchored_start : bool;
  body : regex;
  anchored_end : bool
}.

(** Does a match of [r] start at the head of [s]?  With [to_end] the match
    must reach the end of the input. *)
Fixpoint match_here (to_end : bool) (r : regex) (s : list ascii) : bool :=
  match s with
  | [] => nullable r
  | c :: s' => (negb to_end && nullable r) || match_here to_end (deriv c r) s'
  end.

(** Try every start index in turn, as an unanchored search does. *)
Fixpoint search (to_end : bool) (r : regex) (s : list ascii) : bool :=
  match_here to_end r s ||
  match s with
  | [] => false
  | _ :: s' => search to_end r s'
  end.

(** [regexp.test(s)] for a pattern without flags. *)
Definition RegExp_test (regexp : RegExp) (s : string) : bool :=
  let input := list_ascii_of_string s in
  if anchored_start regexp
  then match_here (anchored_end regexp) (body regexp) input
  else search (anchored_end regexp) (body regexp) input.

Definition in_range (lo hi c : ascii) : bool :=
  ((code lo <=? code c) && (code c <=? code hi))%N.

(** [[0-9a-f]] *)
Definition hex_digit : regex :=
  Class (fun c => in_range "0" "9" c || in_range "a" "f" c).

(** [[^\s@]] *)
Definition not_space_or_at : regex :=
  Class (fun c => negb (is_white_space c || Ascii.eqb c "@")).

(** [/^[^\s@]+@[^\s@]+\.[^\s@]+$/] *)
Definition email_regexp : RegExp := {|
  anchored_start := true;
  body :=
    Cat (Plus not_space_or_at)
      (Cat (Chr "@")
         (Cat (Plus not_space_or_at)
            (Cat (Chr ".") (Plus not_space_or_at))));
  anchored_end := true
|}.

(** [/([0-9a-f]{8})-([0-9a-f]{4})-([0-9a-f]{4})-([0-9a-f]{4})-([0-9a-f]{12})/] *)
Definition uuid_regexp : RegExp := {|
  anchored_start := false;
  body :=
    Cat (Repeat 8 hex_digit)
      (Cat (Chr "-")
         (Cat (Repeat 4 hex_digit)
            (Cat (Chr "-")
               (Cat (Repeat 4 hex_digit)
                  (Cat (Chr "-")
                     (Cat (Repeat 4 hex_digit)
                        (Cat (Chr "-") (Repeat 12 hex_digit))))))));
  anchored_end := false
|}.

(** ** The validators *)

(** [Validator<T>]: a function of one value that returns a boolean, or
    throws. *)
Definition Validator : Type := Value -> Completion bool.

(** [a && b] and [a || b] evaluate [b] only when [a] does not decide. *)
Definition and_then (a b : Completion bool) : Completion bool :=
  x <- a ;; if x then b else ret false.

Definition or_else (a b : Completion bool) : Completion bool :=
  x <- a ;; if x then ret true else b.

(** [!a] *)
Definition not_ (a : Completion bool) : Completion bool :=
  x <- a ;; ret (negb x).

Infix "&&&" := and_then (at level 40, left associativity).
Infix "|||" := or_else (at level 50, left associativity).

(** [for (const x of xs) { body }] where [body] may [return r]: [Some r]
    when an iteration returned, [None] when the loop ran to its end. *)
Fixpoint for_of_return {X R} (xs : list X) (body : X -> Completion (option R))
  : Completion (option R) :=
  match xs with
  | [] => ret None
  | x :: rest =>
      r <- body x ;;
      match r with
      | Some v => ret (Some v)
      | None => for_of_return rest body
      end
  end.

(** The argument type of [$const]:
    [number | string | boolean | undefined | void | symbol]. *)
Inductive Literal : Type :=
  | LNumber (n : number)
  | LString (s : string)
  | LBoolean (b : bool)
  | LUndefined
  | LSymbol (id : nat).

(** [val === def] *)
Definition strictly_equals (val : Value) (def : Literal) : bool :=
  match val, def with
  | VNumber a, LNumber b => number_eq a b
  | VString a, LString b => String.eqb a b
  | VBoolean a, LBoolean b => Bool.eqb a b
  | VUndefined, LUndefined => true
  | VSymbol a, LSymbol b => Nat.eqb a b
  | _, _ => false
  end.

(** [$const], [src/index.ts] lines 43-48. *)
Definition v_const (def : Literal) : Validator := fun val =>
  ret (strictly_equals val def).

(** [$number], [src/index.ts] lines 57-59. *)
Definition v_number : Validator := fun val =>
  ret (String.eqb (typeof val) "number").

(** An optional numeric argument as the value the callee sees. *)
Definition optional_number (arg : option number) : Value :=
  match arg with
  | Some n => VNumber n
  | None => VUndefined
  end.

(** [a <= b] for two values of type ["number"], the only operands the
    library compares. *)
Definition value_le (a b : Value) : bool :=
  match a, b with
  | VNumber x, VNumber y => number_le x y
  | _, _ => false
  end.

Definition value_ge (a b : Value) : bool := value_le b a.

Record NumberRangeArgs : Type := { min : option number; max : option number }.

(** [$numberRange], [src/index.ts] lines 80-87. *)
Definition v_numberRange (args : NumberRangeArgs) : Validator := fun val =>
  let min := optional_number (min args) in
  let max := optional_number (max args) in
  v_number val
    &&& (not_ (v_number min) ||| ret (value_le min val))
    &&& (not_ (v_number max) ||| ret (value_ge max val)).

(** [$string], [src/index.ts] lines 96-98. *)
Definition v_string : Validator := fun val =>
  ret (String.eqb (typeof val) "string").

(** [$numericString], [src/index.ts] lines 107-112. *)
Definition v_numericString : Validator := fun val =>
  is_string <- v_string val ;;
  if negb is_string then ret false
  else
    match val with
    | VString s => ret (negb (Number_isNaN (parseInt s)))
    | _ => ret false
    end.

(** [$null], [src/index.ts] lines 121-123. *)
Definition v_null : Validator := fun val => ret (strictly_null val).

(** [$undefined], [src/index.ts] lines 132-134. *)
Definition v_undefined : Validator := fun val => ret (strictly_undefined val).

(** [$any], [src/index.ts] lines 144-146. *)
Definition v_any : Validator := fun _val => ret true.

(** [$optional], [src/index.ts] lines 159-163. *)
Definition v_optional (validator : Validator) : Validator := fun val =>
  ret (loosely_null val) ||| validator val.

(** [$nullable], [src/index.ts] lines 177-181. *)
Definition v_nullable (validator : Validator) : Validator := fun val =>
  v_null val ||| validator val.

(** [$regexp], [src/index.ts] lines 193-196. *)
Definition v_regexp (regexp : RegExp) : Validator := fun val =>
  match val with
  | VString s => ret (RegExp_test regexp s)
  | _ => ret false
  end.

(** [$email], [src/index.ts] line 205. *)
Definition v_email : Validator := v_regexp email_regexp.

(** [$uuid], [src/index.ts] lines 215-217. *)
Definition v_uuid : Validator := v_regexp uuid_regexp.

(** [$symbol], [src/index.ts] lines 245-247. *)
Definition v_symbol : Validator := fun val =>
  ret (String.eqb (typeof val) "symbol").

(** [$bigint], [src/index.ts] lines 256-258. *)
Definition v_bigint : Validator := fun val =>
  ret (String.eqb (typeof val) "bigint").

(** [$boolean], [src/index.ts] lines 267-269. *)
Definition v_boolean : Validator := fun val =>
  ret (String.eqb (typeof val) "boolean").

(** [$enum], [src/index.ts] lines 281-288. *)
Definition v_enum (enums : list string) : Validator := fun input =>
  is_string <- v_string input ;;
  if negb is_string then ret false
  else
    match input with
    | VString s => ret (bool_decide (s ∈ enums))
    | _ => ret false
    end.

(** [$intersection], [src/index.ts] lines 304-316. *)
Definition v_intersection (validators : list Validator) : Validator := fun val =>
  failed <- for_of validators
    (fun failed validator =>
       ok <- validator val ;;
       ret (if negb ok then true else failed))
    false ;;
  ret (negb failed).

(** [$union], [src/index.ts] lines 329-340. *)
Definition v_union (validators : list Validator) : Validator := fun val =>
  r <- for_of_return validators
    (fun validator =>
       ok <- validator val ;;
       ret (if ok then Some true else None)) ;;
  ret (default false r).

(** [$array], [src/index.ts] lines 400-416. *)
Definition v_array (child : Validator) : Validator := fun val =>
  match val with
  | VArray elems =>
      failed <- for_of elems
        (fun failed value =>
           ok <- child value ;;
           ret (if negb ok then true else failed))
        false ;;
      ret (negb failed)
  | _ => ret false
  end.

Record ArrayLengthArgs : Type := {
  al_min : option number;
  al_max : option number;
  al_child : Validator
}.

(** [$arrayLength], [src/index.ts] lines 446-454. *)
Definition v_arrayLength (args : ArrayLengthArgs) : Validator := fun val =>
  let arrayValidator := v_array (al_child args) in
  is_array <- arrayValidator val ;;
  if negb is_array then ret false
  else
    match val with
    | VArray elems =>
        let length := VNumber (number_of_nat (length elems)) in
        let min := optional_number (al_min args) in
        let max := optional_number (al_max args) in
        ret ((strictly_undefined min || value_ge length min)
             && (strictly_undefined max || value_le length max))
    | _ => ret false
    end.

(** One iteration of the loop of [$record] over the own entries of the
    input; the loop state is [failed]. *)
Definition record_step (keyValidator valueValidator : Validator) (failed : bool)
    (entry : string * Value) : Completion bool :=
  let '(key, value) := entry in
  if String.eqb key "__proto__" then ret failed
  else
    key_ok <- keyValidator (VString key) ;;
    let failed := if negb key_ok then true else failed in
    value_ok <- valueValidator value ;;
    ret (if negb value_ok then true else failed).

(** [$record], [src/index.ts] lines 466-494. *)
Definition v_record (valueValidator : Validator) : Validator := fun val =>
  if negb (String.eqb (typeof val) "object") || strictly_null val then ret false
  else
    let keyValidator := v_union [v_string; v_number; v_symbol] in
    failed <- for_of (Object_entries val)
      (record_step keyValidator valueValidator) false ;;
    ret (negb failed).

(** [val.entries()] of an array: its elements paired with their indices. *)
Definition Array_entries (elems : list Value) : list (nat * Value) :=
  zip (seq 0 (length elems)) elems.

(** [$tuple], [src/index.ts] lines 506-526. *)
Definition v_tuple (children : list Validator) : Validator := fun val =>
  match val with
  | VArray elems =>
      if negb (Nat.eqb (length elems) (length children)) then ret false
      else
        failed <- for_of (Array_entries elems)
          (fun failed entry =>
             let '(key, value) := entry in
             match children !! key with
             | Some validator =>
                 ok <- validator value ;;
                 ret (if negb ok then true else failed)
             | None => Throw TypeError
             end)
          false ;;
        ret (negb failed)
  | _ => ret false
  end.

(** ** Inputs that are not plain data *)

(** An own enumerable property of a host object: a data property holds a
    value; an accessor property runs its getter when it is read, and the
    getter returns a value or throws. *)
Inductive Slot : Type :=
  | DataSlot (value : Value)
  | AccessorSlot (getter : Completion Value).

(** The inputs a validator can be handed: a plain value; an ordinary object
    some of whose own enumerable properties are accessors; an array with
    holes ([None]) and with further own enumerable properties besides its
    elements; a revoked proxy of an ordinary object.  The properties of a
    host object hold plain values. *)
Inductive HostValue : Type :=
  | Plain (val : Value)
  | HostObject (props : list (string * Slot))
  | HostArray (elems : list (option Value)) (props : list (string * Slot))
  | RevokedProxy.

(** [typeof val]; it never throws, a revoked proxy included. *)
Definition h_typeof (val : HostValue) : string :=
  match val with
  | Plain v => typeof v
  | HostObject _ | HostArray _ _ | RevokedProxy => "object"
  end.

(** [val == null] *)
Definition h_loosely_null (val : HostValue) : bool :=
  match val with
  | Plain v => loosely_null v
  | _ => false
  end.

(** [val === null] *)
Definition h_strictly_null (val : HostValue) : bool :=
  match val with
  | Plain v => strictly_null v
  | _ => false
  end.

(** Reading a property. *)
Definition read_slot (slot : Slot) : Completion Value :=
  match slot with
  | DataSlot value => ret value
  | AccessorSlot getter => getter
  end.

(** Reading every property in order; the first getter that throws ends the
    reading. *)
Fixpoint read_all (props : list (string * Slot)) : Completion (list (string * Value)) :=
  match props with
  | [] => ret []
  | (key, slot) :: rest =>
      value <- read_slot slot ;;
      values <- read_all rest ;;
      ret ((key, value) :: values)
  end.

(** The index entries of an array, holes skipped. *)
Definition present_entries (elems : list (option Value)) : list (string * Value) :=
  omap (fun entry : string * option Value =>
          match entry.2 with
          | Some value => Some (entry.1, value)
          | None => None
          end)
    (zip (index_key <$> seq 0 (length elems)) elems).

(** [Array.isArray(val)]: throws a [TypeError] on a revoked proxy. *)
Definition h_Array_isArray (val : HostValue) : Completion bool :=
  match val with
  | Plain v => ret (Array_isArray v)
  | HostObject _ => ret false
  | HostArray _ _ => ret true
  | RevokedProxy => Throw TypeError
  end.

(** [Object.keys(val)]: the own enumerable keys, index keys first; no getter
    runs; throws a [TypeError] on a revoked proxy. *)
Definition h_Object_keys (val : HostValue) : Completion (list string) :=
  match val with
  | Plain v => ret (Object_keys v)
  | HostObject props => ret props.*1
  | HostArray elems props => ret ((present_entries elems).*1 ++ props.*1)
  | RevokedProxy => Throw TypeError
  end.

(** [Object.entries(val)]: the own enumerable properties, each one read;
    throws what a getter throws, and a [TypeError] on a revoked proxy. *)
Definition h_Object_entries (val : HostValue) : Completion (list (string * Value)) :=
  match val with
  | Plain v => ret (Object_entries v)
  | HostObject props => read_all props
  | HostArray elems props =>
      extra <- read_all props ;;
      ret (present_entries elems ++ extra)
  | RevokedProxy => Throw TypeError
  end.

(** ** The host *)

(** A sample of what the prototype chain answers: a plain object and an
    array inherit [toString], [hasOwnProperty], [constructor] and the
    [__proto__] accessor (which reads as the prototype object); nothing else
    is inherited in this sample. *)
Definition sample_inherited (val : Value) (key : string) : option Value :=
  match val with
  | VObject _ | VArray _ =>
      if String.eqb key "toString" then Some (VFunction 0)
      else if String.eqb key "hasOwnProperty" then Some (VFunction 1)
      else if String.eqb key "constructor" then Some (VFunction 2)
      else if String.eqb key "__proto__" then Some (VObject [])
      else None
  | _ => None
  end.

(** A sample URL parser: accepts what starts with a scheme such as
    [http://], throws a [TypeError] otherwise. *)
Definition sample_new_URL (s : string) : Completion string :=
  if String.prefix "http://" s || String.prefix "https://" s
     || String.prefix "ftp://" s
  then ret s
  else Throw TypeError.

(** ** Sample data *)

Definition is_string (val : Value) : bool := String.eqb (typeof val) "string".
Definition is_number (val : Value) : bool := String.eqb (typeof val) "number".

Definition num (z : Z) : Value := VNumber (Finite (inject_Z z)).

(** The shape [{ name: $string, age: $number }]. *)
Definition name_and_age : list (string * (Value -> bool)) :=
  [("name", is_string); ("age", is_number)].

(** [{ name: "A", age: 1 }] *)
Definition valid_object : Value :=
  VObject [("name", VString "A"); ("age", num 1)].

(** [{ name: "A", age: 1, extra: 1 }] *)
Definition extra_props_object : Value :=
  VObject [("name", VString "A"); ("age", num 1); ("extra", num 1)].

(** [{ name: "A" }] *)
Definition missing_prop_object : Value := VObject [("name", VString "A")].

(** An object with an own enumerable key [__proto__], as
    [JSON.parse('{"__proto__": {}, "name": "A"}')] builds. *)
Definition own_proto_object : list (string * Value) :=
  [("__proto__", VObject []); ("name", VString "A")].

(** [{ get a() { throw "boom" } }] *)
Definition throwing_getter_object : list (string * Slot) :=
  [("a", AccessorSlot (Throw (VString "boom")))].

(** [a = [1, 2]; a.foo = "x"] *)
Definition array_with_extra : list (option Value) * list (string * Slot) :=
  ([Some (num 1); Some (num 2)], [("foo", DataSlot (VString "x"))]).

(** [a = [1, , 2]; a.total = 3] *)
Definition array_with_number_extra : list (option Value) * list (string * Slot) :=
  ([Some (num 1); None; Some (num 2)], [("total", DataSlot (num 3))]).

(** ** Proof automation *)

(** Decide a closed decidable proposition by evaluation. *)
Ltac decide_it := refine (bool_decide_unpack _ _); vm_compute; exact I.

Ltac returns := eexists; reflexivity.

Ltac by_cases :=
  repeat (simpl;
          match goal with
          | |- context [if ?b then _ else _] => destruct b
          end);
  simpl; try returns.

Set Default Proof Using "Type".

Section Host.

(** What a property read finds on the prototype chain of [val] when [val]
    has no own property of that name (for a plain object, the members of
    [Object.prototype]); [None] when the chain has none either. *)
Variable inherited : Value -> string -> option Value.

(** [val?.[key]] for a [val] that is neither [null] nor [undefined]. *)
Definition Get (val : Value) (key : string) : Value :=
  match own_property val key with
  | Some v => v
  | None => default VUndefined (inherited val key)
  end.

(** [new URL(s)]: the host's URL parser returns a URL record or throws. *)
Variable URL : Type.
Variable new_URL : string -> Completion URL.

(** [$url], [src/index.ts] lines 226-236. *)
Definition v_url : Validator := fun val =>
  match val with
  | VString s =>
      try_catch
        (_url <- new_URL s ;; ret true)
        (fun _e => ret false)
  | _ => ret false
  end.

(** One iteration of the loop of [$object] over the entries of
    [validatorMap]; the loop state is [(failed, unchecked)]. *)
Definition object_step (val : Value) (state : bool * gset string)
    (entry : string * Validator) : Completion (bool * gset string) :=
  let '(failed, unchecked) := state in
  let '(key, validator) := entry in
  if String.eqb key "__proto__" then ret (failed, unchecked)
  else
    ok <- validator (Get val key) ;;
    let failed := if negb ok then true else failed in
    ret (failed, unchecked ∖ {[key]}).

(** [$object], [src/index.ts] lines 355-388; [validatorMap] is given by its
    [Object.entries]. *)
Definition v_object (validatorMap : list (string * Validator)) (exact : bool)
  : Validator := fun val =>
  if negb (String.eqb (typeof val) "object") || loosely_null val then ret false
  else
    let unchecked : gset string := list_to_set (Object_keys val) in
    state <- for_of validatorMap (object_step val) (false, unchecked) ;;
    let '(failed, unchecked) := state in
    if failed then ret false
    else if exact then ret (Nat.eqb (size unchecked) 0)
    else ret true.

(** ** Validators on host inputs *)

(** [val?.[key]] for a [val] that is neither [null] nor [undefined]: the own
    property when there is one (running its getter), what the prototype
    chain of an ordinary object or array answers otherwise; throws a
    [TypeError] on a revoked proxy. *)
Definition h_Get (val : HostValue) (key : string) : Completion Value :=
  match val with
  | Plain v => ret (Get v key)
  | HostObject props =>
      match assoc key props with
      | Some slot => read_slot slot
      | None => ret (default VUndefined (inherited (VObject []) key))
      end
  | HostArray elems props =>
      match assoc key (present_entries elems) with
      | Some value => ret value
      | None =>
          if String.eqb key "length"
          then ret (VNumber (number_of_nat (length elems)))
          else
            match assoc key props with
            | Some slot => read_slot slot
            | None => ret (default VUndefined (inherited (VArray []) key))
            end
      end
  | RevokedProxy => Throw TypeError
  end.

(** What [val.values()] yields on an array: a hole reads as [undefined]. *)
Definition h_elements (val : HostValue) : list Value :=
  match val with
  | Plain (VArray elems) => elems
  | HostArray elems _ => default VUndefined <$> elems
  | _ => []
  end.

(** A validator applied to any input. *)
Definition HostValidator : Type := HostValue -> Completion bool.

(** One iteration of the loop of [$object] on a host input. *)
Definition host_object_step (val : HostValue) (state : bool * gset string)
    (entry : string * Validator) : Completion (bool * gset string) :=
  let '(failed, unchecked) := state in
  let '(key, validator) := entry in
  if String.eqb key "__proto__" then ret (failed, unchecked)
  else
    property <- h_Get val key ;;
    ok <- validator property ;;
    let failed := if negb ok then true else failed in
    ret (failed, unchecked ∖ {[key]}).

(** [$object], [src/index.ts] lines 355-388, on a host input. *)
Definition host_object (validatorMap : list (string * Validator)) (exact : bool)
  : HostValidator := fun val =>
  if negb (String.eqb (h_typeof val) "object") || h_loosely_null val then ret false
  else
    keys <- h_Object_keys val ;;
    let unchecked : gset string := list_to_set keys in
    state <- for_of validatorMap (host_object_step val) (false, unchecked) ;;
    let '(failed, unchecked) := state in
    if failed then ret false
    else if exact then ret (Nat.eqb (size unchecked) 0)
    else ret true.

(** [$record], [src/index.ts] lines 466-494, on a host input. *)
Definition host_record (valueValidator : Validator) : HostValidator := fun val =>
  if negb (String.eqb (h_typeof val) "object") || h_strictly_null val then ret false
  else
    let keyValidator := v_union [v_string; v_number; v_symbol] in
    entries <- h_Object_entries val ;;
    failed <- for_of entries (record_step keyValidator valueValidator) false ;;
    ret (negb failed).

(** [$array], [src/index.ts] lines 400-416, on a host input. *)
Definition host_array (child : Validator) : HostValidator := fun val =>
  is_array <- h_Array_isArray val ;;
  if negb is_array then ret false
  else
    failed <- for_of (h_elements val)
      (fun failed value =>
         ok <- child value ;;
         ret (if negb ok then true else failed))
      false ;;
    ret (negb failed).

(** [$tuple], [src/index.ts] lines 506-526, on a host input. *)
Definition host_tuple (children : list Validator) : HostValidator := fun val =>
  is_array <- h_Array_isArray val ;;
  if negb is_array then ret false
  else
    let elems := h_elements val in
    if negb (Nat.eqb (length elems) (length children)) then ret false
    else
      failed <- for_of (Array_entries elems)
        (fun failed entry =>
           let '(key, value) := entry in
           match children !! key with
           | Some validator =>
               ok <- validator value ;;
               ret (if negb ok then true else failed)
           | None => Throw TypeError
           end)
        false ;;
      ret (negb failed).

(** ** Specification vocabulary *)

(** A validator that returns on every input. *)
Definition total (v : Validator) : Prop :=
  forall val, exists b, v val = Normal b.

(** A pure validator: a boolean function of the value. *)
Definition pure_validator (f : Value -> bool) : Validator := fun val => ret (f val).

(** The entries of a shape map that [$object] does not skip. *)
Definition declared {A} (validatorMap : list (string * A)) : list (string * A) :=
  filter (fun entry => entry.1 ≠ "__proto__") validatorMap.

(** The own entries of an input that [$record] does not skip. *)
Definition checked (entries : list (string * Value)) : list (string * Value) :=
  filter (fun entry => entry.1 ≠ "__proto__") entries.

(** A shape map of pure validators. *)
Definition pure_shape (shape : list (string * (Value -> bool)))
  : list (string * Validator) :=
  (fun entry => (entry.1, pure_validator entry.2)) <$> shape.

(** Every declared key's validator accepts the property it is applied to. *)
Definition all_pass (shape : list (string * (Value -> bool))) (val : Value) : bool :=
  forallb (fun entry => entry.2 (Get val entry.1)) (declared shape).

(** The input has no own key beyond the declared ones. *)
Definition no_extra (shape : list (string * (Value -> bool))) (val : Value) : bool :=
  forallb (fun key => bool_decide (key ∈ (declared shape).*1)) (Object_keys val).

(** [[0-9]] *)
Definition is_decimal_digit (c : ascii) : bool := in_range "0" "9" c.

(** [+] or [-] *)
Definition is_sign (c : ascii) : bool := Ascii.eqb c "+" || Ascii.eqb c "-".

(** The string starts with [0x] or [0X]. *)
Definition hex_prefixed (s : string) : bool :=
  match s with
  | String "0" (String "x" _) => true
  | String "0" (String "X" _) => true
  | _ => false
  end.

(** The code units of a string. *)
Definition code_units (s : string) : list ascii := list_ascii_of_string s.

(** What [test] looks for: a match of the body somewhere in the input, at
    the very start under [^], up to the very end under [$]. *)
Definition found_in (regexp : RegExp) (input : list ascii) : Prop :=
  exists pre m post,
    input = pre ++ m ++ post
    /\ matches (body regexp) m
    /\ (anchored_start regexp = true -> pre = [])
    /\ (anchored_end regexp = true -> post = []).

(** The OR of all the answers, every validator consulted. *)
Definition or_of_all (fs : list (Value -> bool)) (val : Value) : bool :=
  foldl (fun acc f => acc || f val) false fs.

(** A validator that throws whenever it is applied. *)
Definition v_throwing : Validator := fun _ => Throw TypeError.

(** The boolean a completion carries, for a call known to return. *)
Definition result_of (c : Completion bool) : bool :=
  match c with
  | Normal b => b
  | Throw _ => false
  end.

(** The seven validators of primitive kinds. *)
Definition kind_validators : list Validator :=
  [v_number; v_string; v_boolean; v_null; v_undefined; v_symbol; v_bigint].

(** How many of the kind validators accept [val]. *)
Definition accepting_kinds (val : Value) : nat :=
  length (List.filter (fun v => result_of (v val)) kind_validators).

(** The value a literal denotes. *)
Definition literal_value (def : Literal) : Value :=
  match def with
  | LNumber n => VNumber n
  | LString s => VString s
  | LBoolean b => VBoolean b
  | LUndefined => VUndefined
  | LSymbol id => VSymbol id
  end.

(** A character that [[^\s@]] matches. *)
Definition plain_char (c : ascii) : bool :=
  negb (is_white_space c || Ascii.eqb c "@").

(** A non-empty string without white space and without [@]. *)
Definition plain_part (s : string) : Prop :=
  s <> "" /\ Forall (fun c => plain_char c = true) (code_units s).

(** A character that [[0-9a-f]] matches. *)
Definition lower_hex (c : ascii) : bool :=
  in_range "0" "9" c || in_range "a" "f" c.

(** A string of exactly [n] lower-case hexadecimal digits. *)
Definition hex_group (n : nat) (s : string) : Prop :=
  length (code_units s) = n /\ Forall (fun c => lower_hex c = true) (code_units s).

(** The check [$record] makes on one own entry: none on [__proto__], the
    value validator otherwise; the key validator always accepts. *)
Definition record_check (valueValidator : Validator) (entry : string * Value)
  : Completion bool :=
  if String.eqb entry.1 "__proto__" then ret true else valueValidator entry.2.

(** The validators the library exports and everything its factories build
    from them. *)
Inductive library_validator : Validator -> Prop :=
  | lv_const def : library_validator (v_const def)
  | lv_number : library_validator v_number
  | lv_numberRange args : library_validator (v_numberRange args)
  | lv_string : library_validator v_string
  | lv_numericString : library_validator v_numericString
  | lv_null : library_validator v_null
  | lv_undefined : library_validator v_undefined
  | lv_any : library_validator v_any
  | lv_optional v : library_validator v -> library_validator (v_optional v)
  | lv_nullable v : library_validator v -> library_validator (v_nullable v)
  | lv_regexp regexp : library_validator (v_regexp regexp)
  | lv_email : library_validator v_email
  | lv_uuid : library_validator v_uuid
  | lv_url : library_validator v_url
  | lv_symbol : library_validator v_symbol
  | lv_bigint : library_validator v_bigint
  | lv_boolean : library_validator v_boolean
  | lv_enum enums : library_validator (v_enum enums)
  | lv_intersection vs :
      (forall v, v ∈ vs -> library_validator v) ->
      library_validator (v_intersection vs)
  | lv_union vs :
      (forall v, v ∈ vs -> library_validator v) ->
      library_validator (v_union vs)
  | lv_object validatorMap exact :
      (forall key v, (key, v) ∈ validatorMap -> library_validator v) ->
      library_validator (v_object validatorMap exact)
  | lv_array child : library_validator child -> library_validator (v_array child)
  | lv_arrayLength args :
      library_validator (al_child args) -> library_validator (v_arrayLength args)
  | lv_record valueValidator :
      library_validator valueValidator -> library_validator (v_record valueValidator)
  | lv_tuple children :
      (forall v, v ∈ children -> library_validator v) ->
      library_validator (v_tuple children).

(** ** The completion monad and the loops *)

(** A loop that only raises a [failed] flag, over checks that all return:
    the flag ends raised iff it started raised or some check said no. *)
Lemma for_of_failed_flag {X} (xs : list X) (check : X -> Completion bool)
    (ok : X -> bool) (failed : bool) :
  (forall x, x ∈ xs -> check x = Normal (ok x)) ->
  for_of xs
    (fun failed x => r <- check x ;; ret (if negb r then true else failed))
    failed
  = Normal (failed || negb (forallb ok xs)).
Proof.
  revert failed. induction xs as [|x xs IH]; intros failed Hxs; simpl.
  - by rewrite orb_false_r.
  - rewrite (Hxs x) by (by left). simpl.
    rewrite IH by (intros y Hy; apply Hxs; by right).
    f_equal. by destruct (ok x), failed.
Qed.

(** ** Logical combinators *)

Lemma v_intersection_total_eq (validators : list Validator) (ok : Validator -> bool) val :
  (forall v, v ∈ validators -> v val = Normal (ok v)) ->
  v_intersection validators val = Normal (forallb ok validators).
Proof.
  intros H. unfold v_intersection.
  rewrite (for_of_failed_flag validators (fun v => v val) ok false H).
  simpl. by rewrite negb_involutive.
Qed.

Lemma v_union_total_eq (validators : list Validator) (ok : Validator -> bool) val :
  (forall v, v ∈ validators -> v val = Normal (ok v)) ->
  v_union validators val = Normal (existsb ok validators).
Proof.
  unfold v_union. induction validators as [|v vs IH]; intros H; simpl; [done|].
  rewrite (H v) by (by left). simpl.
  destruct (ok v); simpl; [done|]. apply IH. intros w Hw; apply H; by right.
Qed.

Lemma v_union_pure (fs : list (Value -> bool)) val :
  v_union (pure_validator <$> fs) val = Normal (existsb (fun f => f val) fs).
Proof.
  unfold v_union. induction fs as [|f fs IH]; simpl; [done|].
  unfold pure_validator at 1. simpl. destruct (f val); simpl; [done|]. apply IH.
Qed.

Lemma v_intersection_pure (fs : list (Value -> bool)) val :
  v_intersection (pure_validator <$> fs) val = Normal (forallb (fun f => f val) fs).
Proof.
  unfold v_intersection.
  assert (G : forall failed,
     for_of (pure_validator <$> fs)
       (fun failed validator =>
          ok <- validator val ;; ret (if negb ok then true else failed)) failed
     = Normal (failed || negb (forallb (fun f => f val) fs))).
  { induction fs as [|f fs IH]; intros failed; simpl.
    - by rewrite orb_false_r.
    - unfold pure_validator at 1. simpl. rewrite IH.
      f_equal. by destruct (f val), failed. }
  rewrite G. simpl. by rewrite negb_involutive.
Qed.

Lemma or_of_all_existsb fs val : or_of_all fs val = existsb (fun f => f val) fs.
Proof.
  unfold or_of_all.
  assert (G : forall acc, foldl (fun acc f => acc || f val) acc fs
                          = acc || existsb (fun f => f val) fs).
  { induction fs as [|f fs IH]; intros acc; simpl.
    - by rewrite orb_false_r.
    - rewrite IH. by rewrite orb_assoc. }
  by rewrite G.
Qed.

(** C1: for pure validators [a], [b] and every value [x],
    [$union([a,b])(x)] is [a(x) || b(x)] and [$intersection([a,b])(x)] is
    [a(x) && b(x)]; and for any list of pure validators the short-circuiting
    loop of [$union] returns what the OR over all validators, each one
    consulted, returns. *)
Theorem C1_union_intersection_duality :
  forall (a b : Value -> bool) (x : Value),
    v_union [pure_validator a; pure_validator b] x = Normal (a x || b x)
    /\ v_intersection [pure_validator a; pure_validator b] x = Normal (a x && b x)
    /\ forall fs : list (Value -> bool),
         v_union (pure_validator <$> fs) x = Normal (or_of_all fs x).
Proof.
  intros a b x. split; [|split].
  - change [pure_validator a; pure_validator b] with (pure_validator <$> [a; b]).
    rewrite v_union_pure. simpl. by rewrite orb_false_r.
  - change [pure_validator a; pure_validator b] with (pure_validator <$> [a; b]).
    rewrite v_intersection_pure. simpl. by rewrite andb_true_r.
  - intros fs. by rewrite v_union_pure, or_of_all_existsb.
Qed.

(** C9: on the empty list [$union] builds a validator that rejects every
    value and [$intersection] one that accepts every value. *)
Theorem C9_nullary_identities :
  forall x : Value,
    v_union [] x = Normal false /\ v_intersection [] x = Normal true.
Proof. intros x. split; reflexivity. Qed.

(** ** Optional and nullable *)

(** C3: [$optional(v)(x)] is true iff [x] is [null], [x] is [undefined] or
    [v(x)] is true; [$nullable(v)(x)] is true iff [x] is [null] or [v(x)] is
    true; on [undefined] the first accepts whatever [v] is and the second
    answers what [v] answers, so [$nullable($string)] rejects it. *)
Theorem C3_optional_nullable :
  forall (v : Validator) (x : Value),
    (v_optional v x = Normal true
       <-> x = VNull \/ x = VUndefined \/ v x = Normal true)
    /\ (v_nullable v x = Normal true <-> x = VNull \/ v x = Normal true)
    /\ v_optional v VUndefined = Normal true
    /\ v_nullable v VUndefined = v VUndefined
    /\ v_nullable v_string VUndefined = Normal false.
Proof.
  intros v x. repeat split.
  - unfold v_optional, or_else. destruct x; simpl; auto;
      destruct (v _) as [[]|]; simpl; auto; discriminate.
  - intros [->|[->|H]]; try reflexivity.
    unfold v_optional, or_else. destruct x; simpl; try reflexivity;
      rewrite H; reflexivity.
  - unfold v_nullable, or_else. destruct x; simpl; auto;
      destruct (v _) as [[]|]; simpl; auto; discriminate.
  - intros [->|H]; try reflexivity.
    unfold v_nullable, or_else. destruct x; simpl; try reflexivity;
      rewrite H; reflexivity.
Qed.

(** ** [$object] and [$record] *)

Lemma for_of_fixed {X S} (xs : list X) (body : S -> X -> Completion S) s :
  (forall x, x ∈ xs -> body s x = Normal s) ->
  for_of xs body s = Normal s.
Proof.
  induction xs as [|x xs IH]; intros H; simpl; [done|].
  rewrite (H x) by (by left). simpl. apply IH. intros y Hy; apply H; by right.
Qed.

Lemma for_of_ext {X S} (xs : list X) (body body' : S -> X -> Completion S) s :
  (forall s x, x ∈ xs -> body s x = body' s x) ->
  for_of xs body s = for_of xs body' s.
Proof.
  revert s. induction xs as [|x xs IH]; intros s H; simpl; [done|].
  rewrite (H s x) by (by left).
  destruct (body' s x) as [s'|e]; simpl; [|done].
  apply IH. intros s0 x0 Hin. apply H. by right.
Qed.

Lemma eqb_proto_true key : String.eqb key "__proto__" = true <-> key = "__proto__".
Proof. apply String.eqb_eq. Qed.

Lemma eqb_proto_false key : String.eqb key "__proto__" = false <-> key ≠ "__proto__".
Proof. apply String.eqb_neq. Qed.

(** The loop of [$object] runs as if the [__proto__] entries were absent. *)
Lemma object_loop_declared validatorMap val state :
  for_of validatorMap (object_step val) state
  = for_of (declared validatorMap) (object_step val) state.
Proof.
  revert state. unfold declared.
  induction validatorMap as [|[key v] rest IH]; intros [failed unchecked]; [done|].
  rewrite filter_cons. simpl. destruct (String.eqb key "__proto__") eqn:E.
  - apply eqb_proto_true in E. subst key.
    rewrite decide_False by (intros H; by apply H). simpl. apply IH.
  - rewrite decide_True by (by apply eqb_proto_false). simpl.
    rewrite ?E. destruct (v _) as [ok|e]; simpl; [apply IH | done].
Qed.

Lemma v_object_declared validatorMap exact val :
  v_object validatorMap exact val = v_object (declared validatorMap) exact val.
Proof. unfold v_object. by rewrite object_loop_declared. Qed.

(** The loop of [$record] runs as if the own [__proto__] entry were absent. *)
Lemma record_loop_checked keyValidator valueValidator props failed :
  for_of props (record_step keyValidator valueValidator) failed
  = for_of (checked props) (record_step keyValidator valueValidator) failed.
Proof.
  revert failed. unfold checked.
  induction props as [|[key value] rest IH]; intros failed; [done|].
  rewrite filter_cons. simpl. destruct (String.eqb key "__proto__") eqn:E.
  - apply eqb_proto_true in E. subst key.
    rewrite decide_False by (intros H; by apply H). simpl. apply IH.
  - rewrite decide_True by (by apply eqb_proto_false). simpl.
    rewrite ?E.
    destruct (keyValidator _) as [key_ok|e]; simpl; [|done].
    destruct (valueValidator value) as [ok|e]; simpl; [apply IH | done].
Qed.

Lemma v_record_checked valueValidator props :
  v_record valueValidator (VObject props)
  = v_record valueValidator (VObject (checked props)).
Proof. unfold v_record. simpl. by rewrite record_loop_checked. Qed.

(** C7: [$object] never applies the validator of a shape entry named
    [__proto__]: the result is the result for the shape without these
    entries, whatever their validators are, even one that throws as soon as
    it is applied.  [$record] exempts an own input key named [__proto__]
    from the key check and from the value check: the result is the result
    for the input without that entry, even when the value validator throws
    on every value. *)
Theorem C7_proto_key_skipped :
  forall (validatorMap : list (string * Validator)) (exact : bool) (val : Value)
         (valueValidator : Validator) (props : list (string * Value)),
    v_object validatorMap exact val = v_object (declared validatorMap) exact val
    /\ (forall v, v_object (("__proto__", v) :: validatorMap) exact val
                  = v_object validatorMap exact val)
    /\ v_object [("__proto__", v_throwing)] false (VObject []) = Normal true
    /\ v_record valueValidator (VObject props)
       = v_record valueValidator (VObject (checked props))
    /\ (forall value, v_record valueValidator (VObject (("__proto__", value) :: props))
                      = v_record valueValidator (VObject props))
    /\ v_record v_throwing (VObject [("__proto__", VNumber NaN)]) = Normal true.
Proof.
  intros validatorMap exact val valueValidator props. repeat split.
  - apply v_object_declared.
  - apply v_record_checked.
Qed.

(** The loop of [$object] never takes [__proto__] out of the unchecked set. *)
Lemma object_loop_keeps_proto validatorMap val failed unchecked state :
  for_of validatorMap (object_step val) (failed, unchecked) = Normal state ->
  "__proto__" ∈ unchecked -> "__proto__" ∈ state.2.
Proof.
  revert failed unchecked.
  induction validatorMap as [|[key v] rest IH]; intros failed unchecked; simpl.
  - intros [= <-]. done.
  - destruct (String.eqb key "__proto__") eqn:E; simpl.
    + apply IH.
    + apply eqb_proto_false in E.
      destruct (v _) as [ok|e]; simpl; [|done].
      intros H Hin. eapply IH; [exact H|].
      apply elem_of_difference. split; [done|].
      rewrite elem_of_singleton. congruence.
Qed.

Lemma object_loop_total validatorMap val state :
  (forall key v, (key, v) ∈ validatorMap -> total v) ->
  exists state', for_of validatorMap (object_step val) state = Normal state'.
Proof.
  revert state.
  induction validatorMap as [|[key v] rest IH]; intros [failed unchecked] H; simpl.
  - by eexists.
  - destruct (String.eqb key "__proto__"); simpl.
    + apply IH. intros k w Hin. apply (H k w). by right.
    + destruct (H key v ltac:(by left) (Get val key)) as [ok ->]. simpl.
      apply IH. intros k w Hin. apply (H k w). by right.
Qed.

Lemma size_zero_not_elem (X : gset string) key :
  key ∈ X -> Nat.eqb (size X) 0 = false.
Proof.
  intros Hin. apply Nat.eqb_neq. intros Hsz.
  apply size_empty_iff in Hsz. rewrite Hsz in Hin. by apply elem_of_empty in Hin.
Qed.

(** C8: with [exact] true, an input that has [__proto__] as an own
    enumerable key is rejected whenever the shape map contains the key
    [__proto__]: the loop leaves [__proto__] in the unchecked set, so the
    set is not empty at the end.  The validator never answers true, and
    answers false when the validators of the shape all return. *)
Theorem C8_exact_rejects_own_proto :
  forall (validatorMap : list (string * Validator)) (props : list (string * Value)),
    "__proto__" ∈ validatorMap.*1 ->
    "__proto__" ∈ props.*1 ->
    (forall state,
        for_of validatorMap (object_step (VObject props))
          (false, list_to_set (Object_keys (VObject props))) = Normal state ->
        "__proto__" ∈ state.2)
    /\ v_object validatorMap true (VObject props) <> Normal true
    /\ ((forall key v, (key, v) ∈ validatorMap -> total v) ->
        v_object validatorMap true (VObject props) = Normal false).
Proof.
  intros validatorMap props _ Hown.
  assert (Hstart : "__proto__" ∈ (list_to_set (Object_keys (VObject props)) : gset string)).
  { apply elem_of_list_to_set. exact Hown. }
  assert (Hloop : forall state,
    for_of validatorMap (object_step (VObject props))
      (false, list_to_set (Object_keys (VObject props))) = Normal state ->
    "__proto__" ∈ state.2).
  { intros state H. eapply object_loop_keeps_proto; eauto. }
  assert (Hres : forall state,
    for_of validatorMap (object_step (VObject props))
      (false, list_to_set (Object_keys (VObject props))) = Normal state ->
    v_object validatorMap true (VObject props) = Normal false).
  { intros [failed unchecked] H. unfold v_object. simpl. rewrite H. simpl.
    destruct failed; [done|]. f_equal.
    apply size_zero_not_elem with (key := "__proto__"). exact (Hloop _ H). }
  split; [exact Hloop|]. split.
  - intros Htrue.
    destruct (for_of validatorMap (object_step (VObject props))
                (false, list_to_set (Object_keys (VObject props))))
      as [state|e] eqn:E.
    + rewrite (Hres state eq_refl) in Htrue. discriminate.
    + unfold v_object in Htrue. simpl in Htrue. rewrite E in Htrue. discriminate.
  - intros Htotal.
    destruct (object_loop_total validatorMap (VObject props)
                (false, list_to_set (Object_keys (VObject props))) Htotal)
      as [state E].
    exact (Hres _ E).
Qed.

Lemma declared_pure_shape shape : declared (pure_shape shape) = pure_shape (declared shape).
Proof.
  unfold declared, pure_shape. induction shape as [|[key f] rest IH]; [done|].
  rewrite fmap_cons, !filter_cons. simpl.
  destruct (decide (key ≠ "__proto__")); simpl; by rewrite IH.
Qed.

Lemma declared_no_proto {A} (shape : list (string * A)) entry :
  entry ∈ declared shape -> entry.1 ≠ "__proto__".
Proof. unfold declared. by intros [H _]%list_elem_of_filter. Qed.

(** The loop of [$object] over pure validators, none of them at [__proto__]:
    the flag records whether some validator said no, and the keys of the
    shape have left the unchecked set. *)
Lemma object_loop_pure shape val failed (unchecked : gset string) :
  (forall entry, entry ∈ shape -> entry.1 ≠ "__proto__") ->
  for_of (pure_shape shape) (object_step val) (failed, unchecked)
  = Normal (failed || negb (forallb (fun entry => entry.2 (Get val entry.1)) shape),
            unchecked ∖ list_to_set shape.*1).
Proof.
  revert failed unchecked.
  induction shape as [|[key f] rest IH]; intros failed unchecked Hno; simpl.
  - rewrite orb_false_r. f_equal. f_equal.
    by rewrite ?list_to_set_nil, difference_empty_L.
  - assert (E : String.eqb key "__proto__" = false).
    { apply eqb_proto_false. apply (Hno (key, f)). by left. }
    rewrite E. simpl.
    rewrite IH by (intros entry Hin; apply Hno; by right).
    f_equal. f_equal.
    + by destruct (f (Get val key)), failed.
    + by rewrite ?list_to_set_cons, difference_difference_l_L.
Qed.

Lemma no_extra_size (keys dkeys : list string) :
  Nat.eqb (size (list_to_set keys ∖ list_to_set dkeys : gset string)) 0
  = forallb (fun key => bool_decide (key ∈ dkeys)) keys.
Proof.
  apply eq_true_iff_eq.
  rewrite Nat.eqb_eq, size_empty_iff, forallb_forall. split.
  - intros H key Hkey. apply bool_decide_eq_true.
    apply list_elem_of_In in Hkey.
    destruct (decide (key ∈ dkeys)) as [|Hout]; [done|]. exfalso.
    assert (Hkey' : key ∈ (list_to_set keys ∖ list_to_set dkeys : gset string)).
    { apply elem_of_difference. by rewrite !elem_of_list_to_set. }
    rewrite H in Hkey'. by apply elem_of_empty in Hkey'.
  - intros H. apply elem_of_equiv_empty. intros key.
    rewrite elem_of_difference, !elem_of_list_to_set. intros [Hin Hout].
    apply Hout. apply list_elem_of_In in Hin. apply H in Hin.
    by apply bool_decide_eq_true in Hin.
Qed.

Lemma v_object_pure shape exact val :
  String.eqb (typeof val) "object" = true -> loosely_null val = false ->
  v_object (pure_shape shape) exact val
  = Normal (all_pass shape val && (negb exact || no_extra shape val)).
Proof.
  intros Hty Hnull. rewrite v_object_declared, declared_pure_shape.
  unfold v_object. rewrite Hty, Hnull. simpl.
  rewrite object_loop_pure by apply declared_no_proto. simpl.
  fold (all_pass shape val). destruct (all_pass shape val); simpl; [|done].
  destruct exact; simpl; [|done].
  f_equal. apply no_extra_size.
Qed.

Lemma Get_missing val key :
  own_property val key = None -> inherited val key = None -> Get val key = VUndefined.
Proof. intros Hown Hinh. unfold Get. by rewrite Hown, Hinh. Qed.

Lemma composite_kind val :
  typeof val = "object" -> val <> VNull ->
  String.eqb (typeof val) "object" = true /\ loosely_null val = false.
Proof. intros Hty Hnull. rewrite Hty. by destruct val. Qed.

(** C2 (amended): for every shape map of pure validators and every non-null
    object input, [$object(shape, exact)] accepts iff every declared key
    other than [__proto__] has its validator accept the corresponding
    property, a missing property being read as [undefined], and, when
    [exact] is true, the input has no own key beyond the declared keys other
    than [__proto__]; with [exact] false extra keys are ignored.  So an
    input whose declared keys pass and which has an extra key passes with
    [exact] false only, and an input missing a declared key (other than
    [__proto__]) whose validator rejects [undefined] fails in both modes. *)
Theorem C2_object_shape_exactness :
  forall (shape : list (string * (Value -> bool))) (exact : bool) (val : Value),
    typeof val = "object" -> val <> VNull ->
    v_object (pure_shape shape) exact val
      = Normal (all_pass shape val && (negb exact || no_extra shape val))
    /\ (forall key, own_property val key = None -> inherited val key = None ->
                    Get val key = VUndefined)
    /\ (forall extra,
          all_pass shape val = true ->
          extra ∈ Object_keys val -> extra ∉ (declared shape).*1 ->
          v_object (pure_shape shape) false val = Normal true
          /\ v_object (pure_shape shape) true val = Normal false)
    /\ (forall key f,
          (key, f) ∈ shape -> key <> "__proto__" ->
          own_property val key = None -> inherited val key = None ->
          f VUndefined = false ->
          v_object (pure_shape shape) exact val = Normal false).
Proof.
  intros shape exact val Hty Hnull.
  destruct (composite_kind val Hty Hnull) as [Hty' Hnull'].
  split; [by apply v_object_pure|]. split; [apply Get_missing|]. split.
  - intros extra Hpass Hin Hout. rewrite !v_object_pure by done.
    rewrite Hpass. simpl. split; [done|]. f_equal.
    apply not_true_iff_false. unfold no_extra. rewrite forallb_forall.
    intros H. apply list_elem_of_In in Hin. apply H in Hin.
    by apply bool_decide_eq_true in Hin.
  - intros key f Hin Hkey Hown Hinh Hrej. rewrite v_object_pure by done.
    assert (Hfail : all_pass shape val = false).
    { apply not_true_iff_false. unfold all_pass. rewrite forallb_forall.
      intros H. specialize (H (key, f)). simpl in H.
      rewrite Get_missing, Hrej in H by done.
      assert (false = true); [|done]. apply H. apply list_elem_of_In.
      unfold declared. apply list_elem_of_filter. done. }
    by rewrite Hfail.
Qed.

(** ** Arrays as composite inputs *)

(** On a plain value the host validators are the validators on data. *)
Lemma host_object_on_data validatorMap exact val :
  host_object validatorMap exact (Plain val) = v_object validatorMap exact val.
Proof.
  unfold host_object, v_object. simpl.
  destruct (negb _ || _); [done|]. simpl.
  rewrite (for_of_ext validatorMap (host_object_step (Plain val)) (object_step val));
    [done|].
  intros [failed unchecked] [key validator] _. reflexivity.
Qed.

Lemma host_record_on_data valueValidator val :
  host_record valueValidator (Plain val) = v_record valueValidator val.
Proof. reflexivity. Qed.

Lemma host_array_on_data child val :
  host_array child (Plain val) = v_array child val.
Proof. by destruct val. Qed.

Lemma host_tuple_on_data children val :
  host_tuple children (Plain val) = v_tuple children val.
Proof. by destruct val. Qed.

Lemma present_entries_value (elems : list (option Value)) key value :
  (key, value) ∈ present_entries elems -> Some value ∈ elems.
Proof.
  unfold present_entries. intros Hin.
  apply list_elem_of_omap in Hin as ([k e] & Hin & Hsome).
  apply elem_of_zip_r in Hin. simpl in *.
  destruct e as [v|]; [|done]. by injection Hsome as _ ->.
Qed.

(** C10 (amended): an array passes the composite-kind check of [$object]
    and [$record]; [$record(valueValidator)] accepts every array whose
    elements the value validator all accepts and whose other own enumerable
    properties, if there are any, hold values it accepts too; so it accepts
    every array without such properties whose elements it accepts; and
    [$object({}, false)] accepts every array. *)
Theorem C10_arrays_are_composites :
  forall (valueValidator : Validator) (elems : list Value)
         (holed : list (option Value)) (props : list (string * Slot))
         (extra : list (string * Value)),
    typeof (VArray elems) = "object"
    /\ VArray elems <> VNull
    /\ ((forall value, value ∈ elems -> valueValidator value = Normal true) ->
        v_record valueValidator (VArray elems) = Normal true)
    /\ v_object [] false (VArray elems) = Normal true
    /\ host_record valueValidator (Plain (VArray elems))
       = v_record valueValidator (VArray elems)
    /\ host_object [] false (Plain (VArray elems))
       = v_object [] false (VArray elems)
    /\ h_typeof (HostArray holed props) = "object"
    /\ h_strictly_null (HostArray holed props) = false
    /\ (read_all props = Normal extra ->
        (forall value, Some value ∈ holed -> valueValidator value = Normal true) ->
        (forall key value, (key, value) ∈ extra ->
                           valueValidator value = Normal true) ->
        host_record valueValidator (HostArray holed props) = Normal true)
    /\ host_object [] false (HostArray holed props) = Normal true.
Proof.
  intros valueValidator elems holed props extra.
  split; [done|]. split; [done|]. split; [|split; [done|]].
  - intros Hall. unfold v_record. simpl.
    rewrite for_of_fixed; [done|].
    intros [key value] Hin. apply elem_of_zip_r in Hin. simpl.
    destruct (String.eqb key "__proto__"); [done|].
    simpl. by rewrite (Hall value Hin).
  - split; [done|]. split; [done|]. split; [done|]. split; [done|].
    split; [|done].
    intros Hread Helems Hextra. unfold host_record. simpl.
    rewrite Hread. simpl. rewrite for_of_fixed; [done|].
    intros [key value] Hin. simpl.
    destruct (String.eqb key "__proto__"); [done|]. simpl.
    apply elem_of_app in Hin as [Hin|Hin].
    + by rewrite (Helems value (present_entries_value _ _ _ Hin)).
    + by rewrite (Hextra key value Hin).
Qed.

(** ** Totality *)

Lemma total_result_of v val : total v -> v val = Normal (result_of (v val)).
Proof. intros H. by destruct (H val) as [b ->]. Qed.

Lemma for_of_total {X S} (xs : list X) (body : S -> X -> Completion S) s :
  (forall s x, x ∈ xs -> exists s', body s x = Normal s') ->
  exists s', for_of xs body s = Normal s'.
Proof.
  revert s. induction xs as [|x xs IH]; intros s H; simpl; [by eexists|].
  destruct (H s x ltac:(by left)) as [s' ->]. simpl.
  apply IH. intros s0 x0 Hin. apply H. by right.
Qed.

Lemma total_const def : total (v_const def).
Proof. intros val. returns. Qed.

Lemma total_typeof kind : total (fun val => ret (String.eqb (typeof val) kind)).
Proof. intros val. returns. Qed.

Lemma total_numberRange args : total (v_numberRange args).
Proof.
  intros val. unfold v_numberRange, v_number, and_then, or_else, not_.
  by_cases.
Qed.

Lemma total_numericString : total v_numericString.
Proof. intros val. unfold v_numericString. destruct val; simpl; returns. Qed.

Lemma total_optional v : total v -> total (v_optional v).
Proof.
  intros H val. unfold v_optional, or_else. simpl.
  destruct (loosely_null val); [returns | apply H].
Qed.

Lemma total_nullable v : total v -> total (v_nullable v).
Proof.
  intros H val. unfold v_nullable, or_else, v_null. simpl.
  destruct (strictly_null val); [returns | apply H].
Qed.

Lemma total_regexp regexp : total (v_regexp regexp).
Proof. intros val. unfold v_regexp. destruct val; returns. Qed.

(** [$url] returns whatever the parser does: a parse that throws is caught
    and answered with false. *)
Lemma v_url_cases val :
  v_url val
  = Normal match val with
           | VString s => match new_URL s with Normal _ => true | Throw _ => false end
           | _ => false
           end.
Proof. destruct val; try reflexivity. simpl. by destruct (new_URL s). Qed.

Lemma total_url : total v_url.
Proof. intros val. rewrite v_url_cases. returns. Qed.

Lemma total_enum enums : total (v_enum enums).
Proof. intros val. unfold v_enum. destruct val; simpl; returns. Qed.

Lemma total_intersection vs : (forall v, v ∈ vs -> total v) -> total (v_intersection vs).
Proof.
  intros H val.
  rewrite (v_intersection_total_eq vs (fun v => result_of (v val))); [returns|].
  intros v Hin. by apply total_result_of, H.
Qed.

Lemma total_union vs : (forall v, v ∈ vs -> total v) -> total (v_union vs).
Proof.
  intros H val.
  rewrite (v_union_total_eq vs (fun v => result_of (v val))); [returns|].
  intros v Hin. by apply total_result_of, H.
Qed.

Lemma total_object validatorMap exact :
  (forall key v, (key, v) ∈ validatorMap -> total v) ->
  total (v_object validatorMap exact).
Proof.
  intros H val. unfold v_object.
  destruct (negb _ || _); [returns|].
  destruct (object_loop_total validatorMap val
              (false, list_to_set (Object_keys val)) H) as [[failed unchecked] ->].
  by_cases.
Qed.

Lemma total_array child : total child -> total (v_array child).
Proof.
  intros H val. unfold v_array. destruct val; try returns.
  rewrite (for_of_failed_flag elems child (fun x => result_of (child x))).
  - returns.
  - intros x _. by apply total_result_of.
Qed.

Lemma total_arrayLength args : total (al_child args) -> total (v_arrayLength args).
Proof.
  intros H val. unfold v_arrayLength.
  destruct (total_array _ H val) as [is_array ->]. simpl.
  destruct is_array; simpl; [|returns]. destruct val; returns.
Qed.

Lemma total_record valueValidator : total valueValidator -> total (v_record valueValidator).
Proof.
  intros H val. unfold v_record.
  destruct (negb _ || _); [returns|].
  destruct (for_of_total (Object_entries val)
              (record_step (v_union [v_string; v_number; v_symbol]) valueValidator)
              false) as [failed ->]; [|returns].
  intros failed [key value] _. simpl.
  destruct (String.eqb key "__proto__"); [returns|].
  simpl. destruct (H value) as [ok ->]. returns.
Qed.

Lemma Array_entries_lookup elems key value :
  (key, value) ∈ Array_entries elems -> key < length elems.
Proof.
  unfold Array_entries. intros Hin%elem_of_zip_l.
  apply list_elem_of_In, in_seq in Hin. lia.
Qed.

Lemma total_tuple children : (forall v, v ∈ children -> total v) -> total (v_tuple children).
Proof.
  intros H val. unfold v_tuple. destruct val; try returns.
  destruct (Nat.eqb (length elems) (length children)) eqn:E; simpl; [|returns].
  apply Nat.eqb_eq in E.
  destruct (for_of_total (Array_entries elems)
    (fun failed entry =>
       let '(key, value) := entry in
       match children !! key with
       | Some validator =>
           ok <- validator value ;; ret (if negb ok then true else failed)
       | None => Throw TypeError
       end) false) as [failed ->]; [|returns].
  intros failed [key value] Hin. apply Array_entries_lookup in Hin.
  destruct (lookup_lt_is_Some_2 children key ltac:(lia)) as [validator Hv].
  simpl. unfold Validator in *. rewrite Hv. destruct (H validator (list_elem_of_lookup_2 _ _ _ Hv) value) as [ok ->].
  returns.
Qed.

(** C4 (amended): on data values (primitives, plain objects with data
    properties, plain arrays) every validator of the library, and every
    validator its factories build from validators of the library, returns a
    boolean and never throws; [$url] catches the exception of the URL parser
    and answers false, answers true when the parse returns, and answers
    false on a value that is not a string.  The validators on data are what
    [$object], [$record], [$array] and [$tuple] do on a plain input. *)
Theorem C4_validators_total :
  (forall v, library_validator v -> forall val, exists b, v val = Normal b)
  /\ (forall s e, new_URL s = Throw e -> v_url (VString s) = Normal false)
  /\ (forall s u, new_URL s = Normal u -> v_url (VString s) = Normal true)
  /\ (forall val, typeof val <> "string" -> v_url val = Normal false)
  /\ (forall validatorMap exact valueValidator child children val,
        host_object validatorMap exact (Plain val) = v_object validatorMap exact val
        /\ host_record valueValidator (Plain val) = v_record valueValidator val
        /\ host_array child (Plain val) = v_array child val
        /\ host_tuple children (Plain val) = v_tuple children val).
Proof.
  split; [|split; [|split; [|split]]].
  - intros v Hv. change (total v).
    induction Hv;
      eauto using total_const, total_numberRange, total_numericString,
        total_optional, total_nullable, total_regexp, total_url, total_enum,
        total_intersection, total_union, total_object, total_array,
        total_arrayLength, total_record, total_tuple;
      try apply total_typeof; try apply total_regexp; intros val; returns.
  - intros s e H. rewrite v_url_cases. by rewrite H.
  - intros s u H. rewrite v_url_cases. by rewrite H.
  - intros val H. rewrite v_url_cases. by destruct val.
  - intros validatorMap exact valueValidator child children val.
    split; [apply host_object_on_data|].
    split; [apply host_record_on_data|].
    split; [apply host_array_on_data | apply host_tuple_on_data].
Qed.

(** ** Regular expression matching *)

Lemma matches_nullable r : matches r [] -> nullable r = true.
Proof.
  intros H. remember [] as s eqn:Es. induction H; simpl; try done.
  - apply app_eq_nil in Es as [-> ->]. by rewrite IHmatches1, IHmatches2.
  - by rewrite IHmatches.
  - rewrite IHmatches by done. apply orb_true_r.
Qed.

Lemma nullable_matches r : nullable r = true -> matches r [].
Proof.
  induction r; simpl; intros H; try done.
  - constructor.
  - apply andb_true_iff in H as [H1 H2].
    change (@nil ascii) with (@nil ascii ++ []). constructor; auto.
  - apply orb_true_iff in H as [H|H]; [apply matches_Alt_l | apply matches_Alt_r]; auto.
  - constructor.
Qed.

Lemma deriv_sound c r s : matches (deriv c r) s -> matches r (c :: s).
Proof.
  revert s. induction r; simpl; intros s H.
  - inversion H.
  - inversion H.
  - destruct (Ascii.eqb c0 c) eqn:E; inversion H; subst.
    apply Ascii.eqb_eq in E. subst. constructor.
  - destruct (p c) eqn:E; inversion H; subst. by constructor.
  - destruct (nullable r1) eqn:E.
    + inversion H as [| | | |? ? ? H'|? ? ? H'| |]; subst.
      * inversion H' as [| | |? ? u v Hu Hv| | | |]; subst.
        change (c :: u ++ v) with ((c :: u) ++ v). constructor; auto.
      * change (c :: s) with ([] ++ c :: s).
        constructor; [by apply nullable_matches | auto].
    + inversion H as [| | |? ? u v Hu Hv| | | |]; subst.
      change (c :: u ++ v) with ((c :: u) ++ v). constructor; auto.
  - inversion H; subst; [apply matches_Alt_l | apply matches_Alt_r]; auto.
  - inversion H as [| | |? ? u v Hu Hv| | | |]; subst.
    change (c :: u ++ v) with ((c :: u) ++ v). constructor; auto.
Qed.

Lemma deriv_complete c r s : matches r (c :: s) -> matches (deriv c r) s.
Proof.
  intros H. remember (c :: s) as w eqn:Ew. revert s Ew.
  induction H; intros s Ew; simpl; try done.
  - injection Ew as -> <-. rewrite Ascii.eqb_refl. constructor.
  - injection Ew as -> <-. rewrite H. constructor.
  - destruct u as [|c' u']; simpl in Ew.
    + subst v. rewrite (matches_nullable _ H). apply matches_Alt_r. auto.
    + injection Ew as -> <-.
      assert (matches (Cat (deriv c r1) r2) (u' ++ v)) by (constructor; auto).
      destruct (nullable r1); [by apply matches_Alt_l | done].
  - apply matches_Alt_l. auto.
  - apply matches_Alt_r. auto.
  - destruct u as [|c' u']; simpl in Ew.
    + subst v. by apply IHmatches2.
    + injection Ew as -> <-. constructor; auto.
Qed.

Lemma match_here_to_end r s : match_here true r s = true <-> matches r s.
Proof.
  revert r. induction s as [|c s IH]; intros r; simpl.
  - split; [apply nullable_matches | apply matches_nullable].
  - rewrite IH. split; [apply deriv_sound | apply deriv_complete].
Qed.

Lemma match_here_prefix r s :
  match_here false r s = true <-> exists u v, s = u ++ v /\ matches r u.
Proof.
  revert r. induction s as [|c s IH]; intros r; simpl.
  - split.
    + intros H. exists [], []. split; [done|by apply nullable_matches].
    + intros (u & v & E & H). symmetry in E. apply app_eq_nil in E as [-> ->].
      by apply matches_nullable.
  - rewrite orb_true_iff, IH. split.
    + intros [H|(u & v & -> & H)].
      * exists [], (c :: s). split; [done|by apply nullable_matches].
      * exists (c :: u), v. split; [done|by apply deriv_sound].
    + intros (u & v & E & H). destruct u as [|c' u]; simpl in E.
      * left. by apply matches_nullable.
      * injection E as <- ->. right. exists u, v. split; [done|by apply deriv_complete].
Qed.

Lemma search_spec to_end r s :
  search to_end r s = true
  <-> exists pre rest, s = pre ++ rest /\ match_here to_end r rest = true.
Proof.
  induction s as [|c s IH].
  - simpl. rewrite orb_false_r. split.
    + intros H. by exists [], [].
    + intros (pre & rest & E & H). symmetry in E.
      by apply app_eq_nil in E as [-> ->].
  - cbn [search]. rewrite orb_true_iff, IH. split.
    + intros [H|(pre & rest & -> & H)].
      * by exists [], (c :: s).
      * by exists (c :: pre), rest.
    + intros (pre & rest & E & H). destruct pre as [|c' pre]; simpl in E.
      * left. by subst rest.
      * injection E as <- ->. right. by exists pre, rest.
Qed.

Lemma match_here_spec to_end r s :
  match_here to_end r s = true
  <-> exists m post, s = m ++ post /\ matches r m /\ (to_end = true -> post = []).
Proof.
  destruct to_end.
  - rewrite match_here_to_end. split.
    + intros H. exists s, []. by rewrite app_nil_r.
    + intros (m & post & -> & H & Hpost). by rewrite Hpost, app_nil_r.
  - rewrite match_here_prefix. split.
    + intros (u & v & -> & H). by exists u, v.
    + intros (m & post & -> & H & _). by exists m, post.
Qed.

(** [regexp.test(s)] is true exactly when a match is found in [s]. *)
Lemma RegExp_test_spec regexp s :
  RegExp_test regexp s = true <-> found_in regexp (code_units s).
Proof.
  unfold RegExp_test, found_in, code_units.
  destruct (anchored_start regexp).
  - rewrite match_here_spec. split.
    + intros (m & post & -> & H & Hpost). by exists [], m, post.
    + intros (pre & m & post & -> & H & Hpre & Hpost).
      rewrite Hpre by done. by exists m, post.
  - rewrite search_spec. split.
    + intros (pre & rest & -> & (m & post & -> & H & Hpost)%match_here_spec).
      by exists pre, m, post.
    + intros (pre & m & post & -> & H & _ & Hpost).
      exists pre, (m ++ post). split; [done|]. apply match_here_spec.
      by exists m, post.
Qed.

Lemma code_units_app (s t : string) : code_units (s +:+ t) = code_units s ++ code_units t.
Proof. induction s as [|c s IH]; simpl; [done|]. unfold code_units in *. simpl. by rewrite IH. Qed.

Lemma code_units_inv (l : list ascii) : exists s, code_units s = l.
Proof. exists (string_of_list_ascii l). apply list_ascii_of_string_of_list_ascii. Qed.

Lemma v_regexp_true regexp s :
  v_regexp regexp (VString s) = Normal true <-> found_in regexp (code_units s).
Proof.
  rewrite <- RegExp_test_spec. simpl. unfold ret. split; [by intros [= ->] | by intros ->].
Qed.

(** C6 (amended): [$uuid] matches unanchored, so every string that contains
    a substring of the 8-4-4-4-12 lower-case hexadecimal form passes, and
    nothing else does; the pattern of [$email] is anchored at both ends, so
    [$email] accepts a string exactly when the whole string has the form
    [local@domain.tld]. *)
Theorem C6_uuid_unanchored_email_anchored :
  (forall pre u post : string,
      matches (body uuid_regexp) (code_units u) ->
      v_uuid (VString (pre +:+ u +:+ post)) = Normal true)
  /\ (forall s : string,
        v_uuid (VString s) = Normal true
        <-> exists pre u post : string,
              s = pre +:+ u +:+ post /\ matches (body uuid_regexp) (code_units u))
  /\ (forall s : string,
        v_email (VString s) = Normal true
        <-> matches (body email_regexp) (code_units s)).
Proof.
  assert (Huuid : forall pre u post : string,
      matches (body uuid_regexp) (code_units u) ->
      v_uuid (VString (pre +:+ u +:+ post)) = Normal true).
  { intros pre u post H. apply v_regexp_true.
    exists (code_units pre), (code_units u), (code_units post).
    by rewrite !code_units_app. }
  split; [exact Huuid|]. split.
  - intros s. split.
    + intros (pre & m & post & E & H & _)%v_regexp_true.
      destruct (code_units_inv pre) as [pre' <-].
      destruct (code_units_inv m) as [m' <-].
      destruct (code_units_inv post) as [post' <-].
      exists pre', m', post'. split; [|done].
      rewrite <- !code_units_app in E.
      unfold code_units in E.
      rewrite <- (string_of_list_ascii_of_string s), E.
      by rewrite string_of_list_ascii_of_string.
    + intros (pre & u & post & -> & H). by apply Huuid.
  - intros s. unfold v_email. rewrite v_regexp_true. split.
    + intros (pre & m & post & E & H & Hpre & Hpost).
      rewrite E, Hpre, Hpost by done. by rewrite app_nil_r.
    + intros H. exists [], (code_units s), []. by rewrite app_nil_r.
Qed.

(** ** [$numericString] *)

Lemma v_numericString_parse val :
  v_numericString val = Normal true
  <-> exists s, val = VString s /\ parseInt s <> NaN.
Proof.
  split.
  - destruct val; try discriminate.
    cbv [v_numericString v_string typeof bind ret]. simpl. intros [= H].
    exists s. split; [done|]. intros E. by rewrite E in H.
  - intros (s & -> & H).
    cbv [v_numericString v_string typeof bind ret]. simpl.
    by destruct (parseInt s).
Qed.

Lemma digit_not_white_space c : is_decimal_digit c = true -> is_white_space c = false.
Proof.
  destruct c as [[] [] [] [] [] [] [] []]; vm_compute; congruence.
Qed.

Lemma digit_not_sign c rest :
  is_decimal_digit c = true -> strip_sign (String c rest) = (1%Z, String c rest).
Proof.
  destruct c as [[] [] [] [] [] [] [] []]; intros H; vm_compute in H;
    try discriminate H; reflexivity.
Qed.

Lemma no_hex_prefix str : hex_prefixed str = false -> strip_prefix str = (10%N, str).
Proof.
  intros H. destruct str as [|c1 [|c2 rest]]; try reflexivity.
  - by destruct c1 as [[] [] [] [] [] [] [] []].
  - destruct c1 as [[] [] [] [] [] [] [] []]; try reflexivity.
    destruct c2 as [[] [] [] [] [] [] [] []]; try reflexivity;
      discriminate H.
Qed.

Lemma digit_leads c rest :
  is_decimal_digit c = true ->
  exists d, leading_digits 10 (String c rest) = d :: leading_digits 10 rest.
Proof.
  intros H. simpl.
  destruct c as [[] [] [] [] [] [] [] []]; vm_compute in H; try discriminate H;
    eexists; reflexivity.
Qed.

(** A string that begins with a decimal digit parses, whatever follows,
    unless it begins with the prefix [0x] or [0X]. *)
Lemma parseInt_digit_first c rest :
  is_decimal_digit c = true -> hex_prefixed (String c rest) = false ->
  parseInt (String c rest) <> NaN.
Proof.
  intros Hd Hx. unfold parseInt. simpl trim_start.
  rewrite (digit_not_white_space c Hd), (digit_not_sign c rest Hd).
  rewrite (no_hex_prefix _ Hx).
  destruct (digit_leads c rest Hd) as [d ->]. discriminate.
Qed.

(** A string that begins with a character that is neither a digit, nor
    white space, nor a sign does not parse. *)
Lemma parseInt_other_first c rest :
  is_decimal_digit c = false -> is_white_space c = false -> is_sign c = false ->
  parseInt (String c rest) = NaN.
Proof.
  intros Hd Hw Hs. unfold parseInt. simpl trim_start. rewrite Hw.
  destruct c as [[] [] [] [] [] [] [] []];
    vm_compute in Hd, Hs;
    try discriminate Hd; try discriminate Hs; reflexivity.
Qed.

(** Leading white space is skipped. *)
Lemma parseInt_white_space c rest :
  is_white_space c = true -> parseInt (String c rest) = parseInt rest.
Proof. intros H. unfold parseInt. simpl trim_start. by rewrite H. Qed.

(** C5 (amended): [$numericString] accepts a value iff it is a string whose
    integer-prefix parse ([parseInt]) does not give [NaN].  Every string
    that begins with a decimal digit is accepted whatever characters follow,
    unless it begins with [0x] or [0X]; every string that begins with a
    character that is neither a digit, nor white space, nor a sign is
    rejected, the words [NaN] and [Infinity] among them; leading white space
    is skipped, and a sign may precede the digits. *)
Theorem C5_numericString_prefix_parse :
  (forall val,
      v_numericString val = Normal true
      <-> exists s, val = VString s /\ parseInt s <> NaN)
  /\ (forall c rest,
        is_decimal_digit c = true -> hex_prefixed (String c rest) = false ->
        v_numericString (VString (String c rest)) = Normal true)
  /\ (forall c rest,
        is_decimal_digit c = false -> is_white_space c = false ->
        is_sign c = false ->
        v_numericString (VString (String c rest)) = Normal false)
  /\ (forall c rest,
        is_white_space c = true ->
        v_numericString (VString (String c rest)) = v_numericString (VString rest))
  /\ v_numericString (VString "NaN") = Normal false
  /\ v_numericString (VString "Infinity") = Normal false
  /\ v_numericString (VString "-123") = Normal true.
Proof.
  split; [exact v_numericString_parse|]. split; [|split; [|split]].
  - intros c rest Hd Hx. apply v_numericString_parse.
    exists (String c rest). split; [done|]. by apply parseInt_digit_first.
  - intros c rest Hd Hw Hs.
    cbv [v_numericString v_string typeof bind ret]. simpl.
    by rewrite parseInt_other_first.
  - intros c rest Hw.
    cbv [v_numericString v_string typeof bind ret]. simpl.
    by rewrite parseInt_white_space.
  - done.
Qed.

End Host.

(** ** The scenarios of the test suite, on the sample host *)

Example const_tests :
  v_const (LString "A") (VString "A") = Normal true
  /\ v_const (LString "A") (VString "B") = Normal false
  /\ v_const (LString "A") (num 1) = Normal false
  /\ v_const (LNumber (Finite 42)) (num 42) = Normal true
  /\ v_const (LNumber (Finite 42)) (VString "42") = Normal false
  /\ v_const (LSymbol 0) (VSymbol 1) = Normal false
  /\ v_const LUndefined VUndefined = Normal true
  /\ v_const LUndefined VNull = Normal false.
Proof. repeat split. Qed.

Example optional_nullable_tests :
  v_optional v_string (VString "abc") = Normal true
  /\ v_optional v_string VNull = Normal true
  /\ v_optional v_string VUndefined = Normal true
  /\ v_optional v_string (num 1) = Normal false
  /\ v_nullable v_string (VString "") = Normal true
  /\ v_nullable v_string VNull = Normal true
  /\ v_nullable v_string VUndefined = Normal false.
Proof. repeat split. Qed.

Example union_intersection_tests :
  let stringOrNumber := v_union [v_string; v_number] in
  let nameWithAge :=
    v_intersection
      [v_object sample_inherited [("name", v_string)] false;
       v_object sample_inherited [("age", v_number)] false] in
  stringOrNumber (VString "abc") = Normal true
  /\ stringOrNumber (num 123) = Normal true
  /\ stringOrNumber (VBoolean true) = Normal false
  /\ stringOrNumber (VObject []) = Normal false
  /\ stringOrNumber (VArray []) = Normal false
  /\ nameWithAge valid_object = Normal true
  /\ nameWithAge missing_prop_object = Normal false
  /\ nameWithAge extra_props_object = Normal true.
Proof. repeat split. Qed.

Example enum_array_tests :
  v_enum ["A"; "B"; "C"] (VString "A") = Normal true
  /\ v_enum ["A"; "B"; "C"] (VString "D") = Normal false
  /\ v_enum ["A"; "B"; "C"] VNull = Normal false
  /\ v_array v_number (VArray [num 1; num 2; num 3]) = Normal true
  /\ v_array v_number (VArray [num 1; VString "2"; num 3]) = Normal false
  /\ v_array v_number (VArray []) = Normal true
  /\ v_array v_number (VObject []) = Normal false
  /\ v_arrayLength
       {| al_min := Some (Finite 2); al_max := Some (Finite 4); al_child := v_number |}
       (VArray [num 1; num 2; num 3]) = Normal true
  /\ v_arrayLength
       {| al_min := Some (Finite 2); al_max := Some (Finite 4); al_child := v_number |}
       (VArray [num 1]) = Normal false.
Proof. repeat split. Qed.

Example numericString_tests :
  v_numericString (VString "111") = Normal true
  /\ v_numericString (VString "0.3") = Normal true
  /\ v_numericString (VString "-123") = Normal true
  /\ v_numericString (VString "9.99") = Normal true
  /\ v_numericString (VString "abc") = Normal false
  /\ v_numericString (VString "") = Normal false
  /\ v_numericString (VString " ") = Normal false
  /\ v_numericString (VString "NaN") = Normal false
  /\ v_numericString (VString "Infinity") = Normal false
  /\ v_numericString (VNumber NaN) = Normal false
  /\ v_numericString VNull = Normal false.
Proof. repeat split. Qed.

Example email_tests :
  v_email (VString "test@example.com") = Normal true
  /\ v_email (VString "not-an-email") = Normal false
  /\ v_email (VString "test@") = Normal false
  /\ v_email (VString "@example.com") = Normal false
  /\ v_email (VString "test@.com") = Normal false
  /\ v_email (VString "test@example") = Normal false.
Proof. repeat split. Qed.

Example uuid_tests :
  v_uuid (VString "123e4567-e89b-12d3-a456-426614174000") = Normal true
  /\ v_uuid (VString "not-a-uuid") = Normal false
  /\ v_uuid (VString "123e4567-e89b-12d3-a456-42661417400") = Normal false
  /\ v_uuid (VString "123e4567e89b12d3a456426614174000") = Normal false.
Proof. repeat split; vm_compute; reflexivity. Qed.

Example url_tests :
  v_url string sample_new_URL (VString "https://example.com") = Normal true
  /\ v_url string sample_new_URL (VString "not-a-url") = Normal false
  /\ v_url string sample_new_URL (VString "") = Normal false
  /\ v_url string sample_new_URL (num 1) = Normal false.
Proof. repeat split. Qed.

Example object_tests :
  let not_exact := v_object sample_inherited (pure_shape name_and_age) false in
  let exact := v_object sample_inherited (pure_shape name_and_age) true in
  not_exact valid_object = Normal true
  /\ not_exact extra_props_object = Normal true
  /\ not_exact missing_prop_object = Normal false
  /\ not_exact (num 1) = Normal false
  /\ exact valid_object = Normal true
  /\ exact extra_props_object = Normal false
  /\ exact missing_prop_object = Normal false
  /\ exact (num 1) = Normal false.
Proof. repeat split; vm_compute; reflexivity. Qed.

Example record_tests :
  v_record v_string (VObject [("key1", VString "value1"); ("key2", VString "value2")])
    = Normal true
  /\ v_record v_string (VObject [("key1", VString "value1"); ("key2", num 42)])
     = Normal false
  /\ v_record v_string VNull = Normal false
  /\ v_record v_string (VString "string") = Normal false
  /\ v_record v_string (VObject []) = Normal true
  /\ v_record v_number (VArray [num 1; num 2]) = Normal true.
Proof. repeat split. Qed.

Example tuple_tests :
  let tupleValidator := v_tuple [v_string; v_number; v_boolean] in
  tupleValidator (VArray [VString "test"; num 123; VBoolean true]) = Normal true
  /\ tupleValidator (VArray [VString "test"; num 123]) = Normal false
  /\ tupleValidator (VArray [VString "test"; VString "123"; VBoolean true]) = Normal false.
Proof. repeat split. Qed.

Example numberRange_tests :
  let rangeValidator :=
    v_numberRange {| min := Some (Finite 10); max := Some (Finite 20) |} in
  rangeValidator (num 9) = Normal false
  /\ rangeValidator (num 10) = Normal true
  /\ rangeValidator (num 20) = Normal true
  /\ rangeValidator (num 21) = Normal false
  /\ rangeValidator VUndefined = Normal false.
Proof. repeat split. Qed.

(** ** Instances and counterexamples *)

(** C2 as first stated would make [$object] require the validator of every
    key of the shape map to pass, and count every key of the shape map as
    declared.  With the shape [{ ["__proto__"]: $string }] the input [{}]
    is accepted although [$string] rejects what the property [__proto__]
    reads as; and with [exact] true the input with the single own key
    [__proto__] is rejected by the shape [{ ["__proto__"]: $any }] although
    it has no own key outside the shape map. *)
Lemma C2_counterexample :
  (v_string (Get sample_inherited (VObject []) "__proto__") = Normal false
   /\ v_object sample_inherited [("__proto__", v_string)] false (VObject [])
      = Normal true)
  /\ (v_any (Get sample_inherited (VObject [("__proto__", VObject [])]) "__proto__")
      = Normal true
      /\ Object_keys (VObject [("__proto__", VObject [])]) = ["__proto__"]
      /\ v_object sample_inherited [("__proto__", v_any)] true
           (VObject [("__proto__", VObject [])])
         = Normal false).
Proof. repeat split; vm_compute; reflexivity. Qed.

(** The scenario of the test suite: [{ name: "A", age: 1, extra: 1 }]
    against the shape [{ name: $string, age: $number }]. *)
Lemma C2_witness :
  v_object sample_inherited (pure_shape name_and_age) false extra_props_object
    = Normal true
  /\ v_object sample_inherited (pure_shape name_and_age) true extra_props_object
     = Normal false.
Proof.
  destruct (C2_object_shape_exactness sample_inherited name_and_age true
              extra_props_object eq_refl ltac:(discriminate))
    as (_ & _ & Hextra & _).
  apply (Hextra "extra").
  - vm_compute. reflexivity.
  - decide_it.
  - decide_it.
Defined.

(** A validator built by the factories, with [$url] inside, returns on an
    array input. *)
Lemma C4_witness :
  exists b,
    v_object sample_inherited
      [("site", v_url string sample_new_URL); ("tags", v_array v_string)] true
      (VArray [VNull; VString "https://"]) = Normal b.
Proof.
  apply (proj1 (C4_validators_total sample_inherited string sample_new_URL)).
  apply lv_object. intros key v Hin.
  apply elem_of_cons in Hin as [[= -> ->]|Hin]; [apply lv_url|].
  apply elem_of_cons in Hin as [[= -> ->]|Hin]; [apply lv_array, lv_string|].
  by apply elem_of_nil in Hin.
Defined.

(** C5 as first stated would reject every string that begins with a
    non-digit character and accept every digit prefix followed by trailing
    non-digit characters.  ["-123"] begins with a non-digit character and is
    accepted; ["0x"] is the digit [0] followed by the non-digit character
    [x] and is rejected. *)
Lemma C5_counterexample :
  (is_decimal_digit "-"%char = false
   /\ v_numericString (VString "-123") = Normal true)
  /\ (is_decimal_digit "0"%char = true /\ is_decimal_digit "x"%char = false
      /\ v_numericString (VString "0x") = Normal false).
Proof. repeat split. Qed.

(** A digit prefix with a tail, a word, and leading white space. *)
Lemma C5_witness :
  v_numericString (VString "12abc") = Normal true
  /\ v_numericString (VString "abc") = Normal false
  /\ v_numericString (VString " 12") = v_numericString (VString "12").
Proof.
  destruct C5_numericString_prefix_parse as (_ & Hdigit & Hother & Hspace & _).
  split; [|split].
  - apply (Hdigit "1"%char "2abc"); reflexivity.
  - apply (Hother "a"%char "bc"); reflexivity.
  - apply (Hspace " "%char "12"); reflexivity.
Defined.

(** C6 as first stated would make [$email] accept every string that
    contains a valid email: [" test@example.com"] contains
    ["test@example.com"], which [$email] accepts, and is rejected. *)
Lemma C6_counterexample :
  v_email (VString "test@example.com") = Normal true
  /\ " test@example.com" = " " +:+ "test@example.com" +:+ ""
  /\ v_email (VString (" " +:+ "test@example.com" +:+ "")) = Normal false.
Proof. repeat split. Qed.

(** A UUID inside a longer string. *)
Lemma C6_witness :
  v_uuid (VString ("id=" +:+ "123e4567-e89b-12d3-a456-426614174000" +:+ ";"))
    = Normal true.
Proof.
  apply (proj1 C6_uuid_unanchored_email_anchored).
  apply match_here_to_end. vm_compute. reflexivity.
Defined.

(** A shape map with the key [__proto__] against an input that owns the
    key [__proto__]. *)
Lemma C8_witness :
  v_object sample_inherited [("__proto__", v_any); ("name", v_string)] true
    (VObject own_proto_object) = Normal false.
Proof.
  apply (proj2 (proj2 (C8_exact_rejects_own_proto sample_inherited
                         [("__proto__", v_any); ("name", v_string)]
                         own_proto_object
                         ltac:(decide_it) ltac:(decide_it)))).
  intros key v Hin.
  apply elem_of_cons in Hin as [[= -> ->]|Hin]; [intros val; by eexists|].
  apply elem_of_cons in Hin as [[= -> ->]|Hin]; [intros val; by eexists|].
  by apply elem_of_nil in Hin.
Defined.

(** [$record($number)] on [[1, 2]], and on [[1, , 2]] with a further
    property [total = 3]. *)
Lemma C10_witness :
  v_record v_number (VArray [num 1; num 2]) = Normal true
  /\ host_record v_number
       (HostArray array_with_number_extra.1 array_with_number_extra.2)
     = Normal true.
Proof.
  pose proof (C10_arrays_are_composites sample_inherited v_number [num 1; num 2]
                array_with_number_extra.1 array_with_number_extra.2
                [("total", num 3)]) as H.
  split.
  - apply (proj1 (proj2 (proj2 H))).
    intros value Hin.
    apply elem_of_cons in Hin as [->|Hin]; [reflexivity|].
    apply elem_of_cons in Hin as [->|Hin]; [reflexivity|].
    by apply elem_of_nil in Hin.
  - apply (proj1 (proj2 (proj2 (proj2 (proj2 (proj2 (proj2 (proj2 (proj2 H))))))))).
    + reflexivity.
    + intros value Hin. simpl in Hin.
      apply elem_of_cons in Hin as [[= ->]|Hin]; [reflexivity|].
      apply elem_of_cons in Hin as [[=]|Hin].
      apply elem_of_cons in Hin as [[= ->]|Hin]; [reflexivity|].
      by apply elem_of_nil in Hin.
    + intros key value Hin.
      apply elem_of_cons in Hin as [[= -> ->]|Hin]; [reflexivity|].
      by apply elem_of_nil in Hin.
Defined.

(** C4 as first stated would have every validator return on every input.
    An object whose property [a] is an accessor with a throwing getter
    makes [$object({ a: $any }, false)] and [$record($any)] throw what the
    getter throws, and a revoked proxy makes [$object], [$record], [$array]
    and [$tuple] throw a [TypeError]: nothing catches these. *)
Lemma C4_counterexample :
  host_object sample_inherited [("a", v_any)] false
    (HostObject throwing_getter_object) = Throw (VString "boom")
  /\ host_record v_any (HostObject throwing_getter_object) = Throw (VString "boom")
  /\ host_object sample_inherited [] false RevokedProxy = Throw TypeError
  /\ host_record v_any RevokedProxy = Throw TypeError
  /\ host_array v_any RevokedProxy = Throw TypeError
  /\ host_tuple [] RevokedProxy = Throw TypeError.
Proof. repeat split. Qed.

(** C10 as first stated would have [$record($number)] accept every array
    whose elements are numbers.  The array [[1, 2]] with a further own
    property [foo = "x"] has its two elements accepted by [$number] and is
    rejected. *)
Lemma C10_counterexample :
  h_elements (HostArray array_with_extra.1 array_with_extra.2) = [num 1; num 2]
  /\ v_number (num 1) = Normal true
  /\ v_number (num 2) = Normal true
  /\ host_record v_number (HostArray array_with_extra.1 array_with_extra.2)
     = Normal false.
Proof. repeat split. Qed.

(** ** Further properties of the combinators *)

(** The flag loop answers [false] exactly when the flag started down and
    every check returned true; no assumption on the checks. *)
Lemma for_of_flag_false {X} (xs : list X) (check : X -> Completion bool) failed :
  for_of xs
    (fun failed x => r <- check x ;; ret (if negb r then true else failed))
    failed = Normal false
  <-> failed = false /\ Forall (fun x => check x = Normal true) xs.
Proof.
  revert failed. induction xs as [|x xs IH]; intros failed; simpl.
  - unfold ret. split; [intros [= ->]; by split | by intros [-> _]].
  - destruct (check x) as [[]|e] eqn:E; simpl.
    + rewrite IH. split.
      * intros [-> H]. split; [done|]. by constructor.
      * intros [-> H]. split; [done|]. by inversion H.
    + rewrite IH. split; [by intros [? _]|].
      intros [_ H]. inversion H; congruence.
    + split; [done|]. intros [_ H]. inversion H; congruence.
Qed.

Lemma negb_flag (c : Completion bool) :
  (failed <- c ;; ret (negb failed)) = Normal true <-> c = Normal false.
Proof.
  destruct c as [[]|e]; simpl; unfold ret; split; congruence.
Qed.

(** X8: [$intersection(validators)] answers true exactly when every
    validator of the list answers true, whatever the validators are. *)
Theorem intersection_true_iff :
  forall (validators : list Validator) (val : Value),
    v_intersection validators val = Normal true
    <-> Forall (fun v => v val = Normal true) validators.
Proof.
  intros validators val. unfold v_intersection.
  rewrite negb_flag, (for_of_flag_false validators (fun v => v val)).
  split; [by intros [_ H] | by intros H].
Qed.

(** X9: [$union(validators)] answers false exactly when every validator of
    the list answers false, whatever the validators are. *)
Theorem union_false_iff :
  forall (validators : list Validator) (val : Value),
    v_union validators val = Normal false
    <-> Forall (fun v => v val = Normal false) validators.
Proof.
  intros validators val. unfold v_union.
  induction validators as [|v vs IH]; simpl.
  - split; [by constructor | done].
  - destruct (v val) as [[]|e] eqn:E; simpl.
    + split; [done|]. intros H. inversion H; congruence.
    + rewrite IH. split; [by constructor | by inversion 1].
    + split; [done|]. intros H. inversion H; congruence.
Qed.

(** X10: [$union] stops at the first validator that accepts: the validators
    after it are not applied, even one that would throw. *)
Theorem union_short_circuits :
  forall (before after : list Validator) (accepting : Validator) (val : Value),
    Forall (fun v => v val = Normal false) before ->
    accepting val = Normal true ->
    v_union (before ++ accepting :: after) val = Normal true.
Proof.
  intros before after accepting val Hbefore Hacc. unfold v_union.
  induction Hbefore as [|v vs Hv _ IH]; simpl.
  - by rewrite Hacc.
  - rewrite Hv. simpl. exact IH.
Qed.

(** X11: [$intersection] does not stop at a rejection: a validator that
    throws is reached, and its exception propagates, whatever the
    validators before it answered. *)
Theorem intersection_runs_every_validator :
  forall (before after : list Validator) (throwing : Validator) (val e : Value),
    Forall (fun v => exists b, v val = Normal b) before ->
    throwing val = Throw e ->
    v_intersection (before ++ throwing :: after) val = Throw e.
Proof.
  intros before after throwing val e Hbefore Hthrow. unfold v_intersection.
  generalize false at 1. 
  induction Hbefore as [|v vs [b Hv] _ IH]; intros failed; simpl.
  - by rewrite Hthrow.
  - rewrite Hv. simpl. apply IH.
Qed.

Lemma for_of_append {X S} (xs ys : list X) (body : S -> X -> Completion S) s :
  for_of (xs ++ ys) body s = (s' <- for_of xs body s ;; for_of ys body s').
Proof.
  revert s. induction xs as [|x xs IH]; intros s; simpl; [done|].
  destruct (body s x) as [s'|e]; simpl; [apply IH | done].
Qed.

(** The flag loop from a raised flag: same exceptions, and the flag stays
    raised. *)
Lemma for_of_flag_raised {X} (xs : list X) (check : X -> Completion bool) failed :
  for_of xs
    (fun failed x => r <- check x ;; ret (if negb r then true else failed))
    failed
  = (f <- for_of xs
            (fun failed x => r <- check x ;; ret (if negb r then true else failed))
            false ;;
     ret (failed || f)).
Proof.
  revert failed. induction xs as [|x xs IH]; intros failed; simpl.
  - by rewrite orb_false_r.
  - destruct (check x) as [[]|e]; simpl; [apply IH | | done].
    rewrite (IH true).
    destruct (for_of xs _ false) as [f|e]; simpl; [|done].
    by rewrite orb_true_r.
Qed.

(** X12: nesting flattens: [$union] of two lists appended is [$union] of the
    two unions, and likewise [$intersection], whatever the validators are. *)
Theorem union_intersection_flatten :
  forall (xs ys : list Validator) (val : Value),
    v_union (xs ++ ys) val = v_union [v_union xs; v_union ys] val
    /\ v_intersection (xs ++ ys) val
       = v_intersection [v_intersection xs; v_intersection ys] val.
Proof.
  intros xs ys val. split.
  - unfold v_union. simpl. induction xs as [|x xs IH]; simpl.
    + destruct (for_of_return ys _) as [[[]|]|e]; reflexivity.
    + destruct (x val) as [[]|e]; simpl; [reflexivity | exact IH | reflexivity].
  - unfold v_intersection. simpl. rewrite for_of_append.
    destruct (for_of xs _ false) as [f1|e]; simpl; [|done].
    rewrite (for_of_flag_raised ys (fun v => v val) f1).
    destruct (for_of ys _ false) as [f2|e]; simpl; [|done].
    unfold ret. f_equal. by destruct f1, f2.
Qed.

(** X6: the modifiers are unions with the kind validators, and they absorb
    one another: [$nullable(v)] is [$union([$null, v])], [$optional(v)] is
    [$union([$null, $undefined, v])], [$optional] is idempotent, and either
    nesting of [$optional] and [$nullable] is [$optional]. *)
Theorem optional_nullable_compose :
  forall (v : Validator) (val : Value),
    v_nullable v val = v_union [v_null; v] val
    /\ v_optional v val = v_union [v_null; v_undefined; v] val
    /\ v_optional (v_optional v) val = v_optional v val
    /\ v_nullable (v_nullable v) val = v_nullable v val
    /\ v_optional (v_nullable v) val = v_optional v val
    /\ v_nullable (v_optional v) val = v_optional v val.
Proof.
  intros v val.
  repeat split; destruct val; simpl; cbv [v_optional v_nullable v_union or_else
    v_null v_undefined for_of_return bind ret loosely_null strictly_null
    strictly_undefined default];
    try reflexivity; by destruct (v _) as [[]|].
Qed.

Lemma member_existsb (s : string) (enums : list string) :
  bool_decide (s ∈ enums) = existsb (String.eqb s) enums.
Proof.
  induction enums as [|e enums IH]; simpl; [done|].
  destruct (String.eqb_spec s e) as [->|Hne]; simpl.
  - apply bool_decide_eq_true_2. by left.
  - rewrite <- IH. apply bool_decide_ext. rewrite elem_of_cons. naive_solver.
Qed.

Lemma union_of_consts (s : string) (enums : list string) :
  v_union ((fun e => v_const (LString e)) <$> enums) (VString s)
  = Normal (existsb (String.eqb s) enums).
Proof.
  unfold v_union. induction enums as [|e enums IH]; simpl; [done|].
  destruct (String.eqb s e); simpl; [done | exact IH].
Qed.

(** X7: [$enum(enums)] is the [$union] of the [$const] validators of its
    strings; in particular the empty enum rejects every value. *)
Theorem enum_is_union_of_consts :
  forall (enums : list string) (val : Value),
    v_enum enums val = v_union ((fun s => v_const (LString s)) <$> enums) val
    /\ v_enum [] val = Normal false.
Proof.
  intros enums val. split; [|by destruct val].
  destruct val;
    try (unfold v_union; induction enums as [|e enums IH]; simpl;
         [reflexivity | exact IH]).
  rewrite union_of_consts. unfold v_enum. simpl. unfold ret.
  by rewrite member_existsb.
Qed.

Lemma number_eq_refl n : n <> NaN -> number_eq n n = true.
Proof.
  destruct n as [|s|q]; simpl; intros H; [done| by destruct s |].
  apply Qeq_bool_iff. reflexivity.
Qed.

(** X2: [$const(def)] accepts the value of [def] itself unless [def] is
    [NaN]; [$const(NaN)] rejects every value, [NaN] included; and a value
    [$const(def)] accepts has the type of [def]. *)
Theorem const_accepts_its_value :
  forall (def : Literal) (val : Value),
    (def <> LNumber NaN -> v_const def (literal_value def) = Normal true)
    /\ v_const (LNumber NaN) val = Normal false
    /\ (v_const def val = Normal true -> typeof val = typeof (literal_value def)).
Proof.
  intros def val. split; [|split].
  - intros Hdef. unfold v_const, ret. f_equal. destruct def; simpl.
    + apply number_eq_refl. congruence.
    + apply String.eqb_refl.
    + by destruct b.
    + done.
    + apply Nat.eqb_refl.
  - unfold v_const, ret. f_equal. by destruct val as [| | |[]| | | | | |].
  - unfold v_const, ret. intros [= H]. by destruct val, def.
Qed.

(** X1: the kind validators exclude one another: a primitive value is
    accepted by exactly one of [$number], [$string], [$boolean], [$null],
    [$undefined], [$symbol], [$bigint], and a function, an object or an
    array by none. *)
Theorem kinds_are_exclusive :
  forall val : Value,
    accepting_kinds val <= 1
    /\ (accepting_kinds val = 0
        <-> typeof val = "function" \/ (typeof val = "object" /\ val <> VNull)).
Proof.
  intros val. destruct val; (split; [vm_compute; lia|]);
    (split;
     [ intros H; vm_compute in H; try discriminate H;
       first [ left; reflexivity | right; split; [reflexivity | discriminate] ]
     | intros [H|[H1 H2]]; try discriminate H; try discriminate H1;
       try (by destruct H2); reflexivity ]).
Qed.

(** What [$numberRange] answers, bound by bound. *)
Lemma v_numberRange_eval lo hi val :
  v_numberRange {| min := lo; max := hi |} val
  = Normal match val with
           | VNumber n =>
               match lo with Some l => number_le l n | None => true end
               && match hi with Some h => number_le n h | None => true end
           | _ => false
           end.
Proof.
  unfold v_numberRange, v_number, and_then, or_else, not_, value_ge. simpl.
  destruct val; simpl; try reflexivity.
  destruct lo as [l|], hi as [h|]; simpl;
    repeat (match goal with |- context [number_le ?a ?b] => destruct (number_le a b) end;
            simpl); reflexivity.
Qed.

Lemma number_le_trans a b c :
  number_le a b = true -> number_le b c = true -> number_le a c = true.
Proof.
  destruct a as [|[]|p], b as [|[]|q], c as [|[]|r]; simpl; try done.
  rewrite !Qle_bool_iff. apply Qle_trans.
Qed.

(** X3: the bounds of [$numberRange] are inclusive and an absent bound does
    not constrain: with both bounds a finite number is accepted iff
    [min <= val <= max], with one bound iff that bound holds, with none
    every number is accepted; a value that is not a number is rejected. *)
Theorem numberRange_inclusive_bounds :
  forall (lo hi q : Q) (n : number) (range : NumberRangeArgs) (val : Value),
    (v_numberRange {| min := Some (Finite lo); max := Some (Finite hi) |}
       (VNumber (Finite q)) = Normal true <-> Qle lo q /\ Qle q hi)
    /\ (v_numberRange {| min := Some (Finite lo); max := None |}
          (VNumber (Finite q)) = Normal true <-> Qle lo q)
    /\ (v_numberRange {| min := None; max := Some (Finite hi) |}
          (VNumber (Finite q)) = Normal true <-> Qle q hi)
    /\ v_numberRange {| min := None; max := None |} (VNumber n) = Normal true
    /\ (typeof val <> "number" -> v_numberRange range val = Normal false).
Proof.
  intros lo hi q n range val. rewrite !v_numberRange_eval. simpl.
  rewrite andb_true_r. unfold ret.
  repeat split.
  - injection H as H. apply andb_true_iff in H as [H1 _]. by apply Qle_bool_iff.
  - injection H as H. apply andb_true_iff in H as [_ H2]. by apply Qle_bool_iff.
  - intros [H1 H2]. apply Qle_bool_iff in H1, H2. by rewrite H1, H2.
  - intros [= H]. by apply Qle_bool_iff.
  - intros H. apply Qle_bool_iff in H. by rewrite H.
  - intros [= H]. by apply Qle_bool_iff.
  - intros H. apply Qle_bool_iff in H. by rewrite H.
  - intros H. destruct range as [l h]. rewrite v_numberRange_eval.
    by destruct val.
Qed.

(** X4: a range whose [min] is not below or equal to its [max] (crossed
    bounds, or a [NaN] bound) rejects every value. *)
Theorem numberRange_crossed_bounds :
  forall (lo hi : number) (val : Value),
    number_le lo hi = false ->
    v_numberRange {| min := Some lo; max := Some hi |} val = Normal false.
Proof.
  intros lo hi val H. rewrite v_numberRange_eval. f_equal.
  destruct val; try reflexivity.
  destruct (number_le lo n) eqn:E1, (number_le n hi) eqn:E2; try reflexivity.
  by rewrite (number_le_trans _ _ _ E1 E2) in H.
Qed.

(** X5: [$numberRange] accepts [NaN] exactly when it is given no bound. *)
Theorem numberRange_NaN :
  forall range : NumberRangeArgs,
    v_numberRange range (VNumber NaN) = Normal true
    <-> min range = None /\ max range = None.
Proof.
  intros [lo hi]. rewrite v_numberRange_eval. simpl. unfold ret.
  destruct lo as [[|[]|]|], hi as [[|[]|]|]; simpl; split;
    try (intros [= ?]); try (intros [? ?]); try discriminate; auto.
Qed.






(** X16: [$arrayLength] is [$array] followed by [$numberRange] on the length:
    on an array it answers what [$array(child)] answers and then what
    [$numberRange({min, max})] answers on the number of elements; on a value
    that is not an array it answers false. *)
Theorem arrayLength_is_array_then_range :
  forall (args : ArrayLengthArgs) (val : Value),
    (forall elems, val = VArray elems ->
        v_arrayLength args val
        = v_array (al_child args) val
            &&& v_numberRange {| min := al_min args; max := al_max args |}
                  (VNumber (number_of_nat (length elems))))
    /\ (Array_isArray val = false -> v_arrayLength args val = Normal false).
Proof.
  intros [lo hi child] val. split.
  - intros elems ->. rewrite v_numberRange_eval.
    unfold v_arrayLength, and_then. simpl al_child.
    destruct (v_array child (VArray elems)) as [[]|e]; simpl; try reflexivity.
    destruct lo, hi; reflexivity.
  - intros H. by destruct val.
Qed.

Lemma record_step_check valueValidator failed entry :
  record_step (v_union [v_string; v_number; v_symbol]) valueValidator failed entry
  = (r <- record_check valueValidator entry ;;
     ret (if negb r then true else failed)).
Proof.
  destruct entry as [key value]. unfold record_step, record_check. simpl.
  by destruct (String.eqb key "__proto__").
Qed.

(** X17: [$record(valueValidator)] answers true exactly on a non-null object
    or array whose own values, the one at the key [__proto__] excepted, the
    value validator all accepts; the key check rejects nothing, and the
    empty object passes. *)
Theorem record_true_iff :
  forall (valueValidator : Validator) (val : Value),
    v_record valueValidator val = Normal true
    <-> typeof val = "object" /\ val <> VNull
        /\ Forall (fun entry => valueValidator entry.2 = Normal true)
             (checked (Object_entries val)).
Proof.
  intros valueValidator val. unfold v_record.
  destruct (negb (String.eqb (typeof val) "object") || strictly_null val) eqn:E.
  - split; [discriminate|]. intros (Hty & Hnull & _).
    rewrite Hty in E. by destruct val.
  - apply orb_false_iff in E as [Hty Hnull].
    apply negb_false_iff, String.eqb_eq in Hty.
    rewrite (for_of_ext _ _
               (fun failed entry =>
                  r <- record_check valueValidator entry ;;
                  ret (if negb r then true else failed)))
      by (intros; apply record_step_check).
    rewrite negb_flag, for_of_flag_false.
    assert (Hchecked : Forall (fun entry => record_check valueValidator entry = Normal true)
                         (Object_entries val)
                       <-> Forall (fun entry => valueValidator entry.2 = Normal true)
                             (checked (Object_entries val))).
    { unfold checked, record_check.
      induction (Object_entries val) as [|[key value] rest IH]; simpl.
      - split; constructor.
      - rewrite filter_cons. simpl.
        destruct (String.eqb_spec key "__proto__") as [->|Hne].
        + rewrite decide_False by (intros H; by apply H). rewrite <- IH.
          split; [by inversion 1 | by constructor].
        + rewrite decide_True by done.
          pose proof (proj2 (String.eqb_neq _ _) Hne) as Hb. split.
          * inversion 1 as [|? ? H2 H3]; subst.
            simpl in H2. rewrite Hb in H2. constructor; [done|]. by apply IH.
          * inversion 1 as [|? ? H2 H3]; subst.
            constructor; [simpl; by rewrite Hb|]. by apply IH. }
    rewrite Hchecked. split.
    + intros [_ H]. repeat split; [done | by destruct val | done].
    + intros (_ & _ & H). done.
Qed.

(** X18: [$object] and [$record] answer false on every value that is not a
    non-null object or array, without applying any validator, even one that
    throws. *)
Theorem composites_only :
  forall (inherited : Value -> string -> option Value)
         (validatorMap : list (string * Validator)) (exact : bool)
         (valueValidator : Validator) (val : Value),
    typeof val <> "object" \/ val = VNull ->
    v_object inherited validatorMap exact val = Normal false
    /\ v_record valueValidator val = Normal false.
Proof.
  intros inherited validatorMap exact valueValidator val [H| ->]; [|done].
  by destruct val.
Qed.

(** X19: exactness only restricts: whatever the validators are, a value
    [$object(shape, true)] accepts is accepted by [$object(shape, false)]. *)
Theorem exact_implies_inexact :
  forall (inherited : Value -> string -> option Value)
         (validatorMap : list (string * Validator)) (val : Value),
    v_object inherited validatorMap true val = Normal true ->
    v_object inherited validatorMap false val = Normal true.
Proof.
  intros inherited validatorMap val. unfold v_object.
  destruct (negb _ || _); [done|].
  destruct (for_of _ _ _) as [[failed unchecked]|e]; simpl; [|done].
  by destruct failed.
Qed.

Lemma forallb_Permutation {A} (f : A -> bool) (xs ys : list A) :
  xs ≡ₚ ys -> forallb f xs = forallb f ys.
Proof.
  induction 1 as [|x xs ys _ IH|x y xs|xs ys zs _ IH1 _ IH2]; simpl.
  - done.
  - by rewrite IH.
  - by destruct (f x), (f y).
  - by rewrite IH1.
Qed.

(** X20: for pure validators the order of the entries of the shape map does
    not matter to [$object]. *)
Theorem object_shape_order_irrelevant :
  forall (inherited : Value -> string -> option Value)
         (shape shape' : list (string * (Value -> bool))) (exact : bool)
         (val : Value),
    shape ≡ₚ shape' ->
    v_object inherited (pure_shape shape) exact val
    = v_object inherited (pure_shape shape') exact val.
Proof.
  intros inherited shape shape' exact val Hperm.
  destruct (negb (String.eqb (typeof val) "object") || loosely_null val) eqn:E.
  - unfold v_object. by rewrite E.
  - apply orb_false_iff in E as [Hty Hnull]. apply negb_false_iff in Hty.
    rewrite !v_object_pure by done.
    assert (Hdecl : declared shape ≡ₚ declared shape').
    { unfold declared. by rewrite Hperm. }
    f_equal. f_equal.
    + unfold all_pass. by apply forallb_Permutation.
    + f_equal. unfold no_extra.
      induction (Object_keys val) as [|key keys IH]; simpl; [done|].
      rewrite IH. f_equal. apply bool_decide_ext. by rewrite Hdecl.
Qed.

(** X21: for pure validators and two shape maps with no key in common, two
    inexact object validators intersected answer as the inexact object
    validator of the shape map that holds the entries of both, in whatever
    order that map lists them. *)
Theorem intersection_of_objects_merges :
  forall (inherited : Value -> string -> option Value)
         (shape1 shape2 merged : list (string * (Value -> bool))) (val : Value),
    NoDup merged.*1 ->
    merged ≡ₚ shape1 ++ shape2 ->
    v_intersection
      [v_object inherited (pure_shape shape1) false;
       v_object inherited (pure_shape shape2) false] val
    = v_object inherited (pure_shape merged) false val.
Proof.
  intros inherited shape1 shape2 merged val _ Hperm.
  destruct (negb (String.eqb (typeof val) "object") || loosely_null val) eqn:E.
  - unfold v_intersection, v_object. simpl. by rewrite E.
  - apply orb_false_iff in E as [Hty Hnull]. apply negb_false_iff in Hty.
    unfold v_intersection. simpl. rewrite !v_object_pure by done. simpl.
    assert (Hall : all_pass inherited merged val
                   = all_pass inherited shape1 val && all_pass inherited shape2 val).
    { unfold all_pass.
      rewrite (forallb_Permutation _ (declared merged)
                 (declared shape1 ++ declared shape2)).
      - apply forallb_app.
      - unfold declared. by rewrite Hperm, filter_app. }
    rewrite Hall. unfold ret.
    by destruct (all_pass inherited shape1 val), (all_pass inherited shape2 val).
Qed.

(** ** The shapes the two patterns accept *)

Lemma matches_Cat_inv r1 r2 w :
  matches (Cat r1 r2) w -> exists u v, w = u ++ v /\ matches r1 u /\ matches r2 v.
Proof. inversion 1; subst. eauto. Qed.

Lemma matches_Chr_inv c w : matches (Chr c) w -> w = [c].
Proof. by inversion 1. Qed.

Lemma matches_Class_inv p w : matches (Class p) w -> exists c, w = [c] /\ p c = true.
Proof. inversion 1; subst. eauto. Qed.

Lemma matches_star_class p w :
  matches (Star (Class p)) w <-> Forall (fun c => p c = true) w.
Proof.
  split.
  - intros H. remember (Star (Class p)) as r eqn:Er.
    induction H; try discriminate; [constructor|].
    injection Er as ->. apply matches_Class_inv in H as (c & -> & Hc).
    constructor; auto.
  - induction 1 as [|c w Hc _ IH]; [constructor|].
    change (c :: w) with ([c] ++ w). constructor; [by constructor | done].
Qed.

Lemma matches_plus_class p w :
  matches (Plus (Class p)) w <-> w <> [] /\ Forall (fun c => p c = true) w.
Proof.
  unfold Plus. split.
  - intros (u & v & -> & (c & -> & Hc)%matches_Class_inv & Hv%matches_star_class)%matches_Cat_inv.
    split; [done|]. by constructor.
  - intros [Hne H]. destruct H as [|c w Hc H]; [done|].
    change (c :: w) with ([c] ++ w).
    constructor; [by constructor | by apply matches_star_class].
Qed.

Lemma matches_repeat_class p n w :
  matches (Repeat n (Class p)) w <-> length w = n /\ Forall (fun c => p c = true) w.
Proof.
  revert w. induction n as [|n IH]; intros w; simpl.
  - split.
    + inversion 1. by split.
    + intros [Hlen _]. destruct w; [constructor | done].
  - split.
    + intros (u & v & -> & (c & -> & Hc)%matches_Class_inv & Hv%IH)%matches_Cat_inv.
      destruct Hv as [Hlen Hv]. simpl. split; [by rewrite Hlen | by constructor].
    + intros [Hlen H]. destruct H as [|c w Hc H]; [done|].
      change (c :: w) with ([c] ++ w). constructor; [by constructor|].
      apply IH. split; [simpl in Hlen; lia | done].
Qed.

Lemma code_units_nil s : code_units s = [] <-> s = "".
Proof. destruct s; simpl; split; congruence. Qed.

Lemma code_units_inj s t : code_units s = code_units t -> s = t.
Proof.
  unfold code_units. intros H.
  by rewrite <- (string_of_list_ascii_of_string s), H, string_of_list_ascii_of_string.
Qed.

Lemma v_regexp_anchored regexp s :
  anchored_start regexp = true -> anchored_end regexp = true ->
  v_regexp regexp (VString s) = Normal true <-> matches (body regexp) (code_units s).
Proof.
  intros Hs He. rewrite v_regexp_true. unfold found_in. split.
  - intros (pre & m & post & E & H & Hpre & Hpost).
    rewrite E, Hpre, Hpost by done. by rewrite app_nil_r.
  - intros H. exists [], (code_units s), []. by rewrite app_nil_r.
Qed.

(** X22: [$email] accepts exactly the strings [local@domain.tld] whose three
    parts are non-empty and contain neither white space nor [@]. *)
Theorem email_shape :
  forall s : string,
    v_email (VString s) = Normal true
    <-> exists local domain tld : string,
          s = local +:+ "@" +:+ domain +:+ "." +:+ tld
          /\ plain_part local /\ plain_part domain /\ plain_part tld.
Proof.
  intros s. unfold v_email. rewrite v_regexp_anchored by done.
  unfold plain_part. split.
  - intros (l & w1 & E1 & Hl%matches_plus_class
            & (a & w2 & -> & ->%matches_Chr_inv
               & (d & w3 & -> & Hd%matches_plus_class
                  & (dot & t & -> & ->%matches_Chr_inv & Ht%matches_plus_class
                    )%matches_Cat_inv)%matches_Cat_inv)%matches_Cat_inv)%matches_Cat_inv.
    destruct (code_units_inv l) as [l' <-].
    destruct (code_units_inv d) as [d' <-].
    destruct (code_units_inv t) as [t' <-].
    exists l', d', t'. rewrite !code_units_nil in *.
    split; [|done]. apply code_units_inj. by rewrite E1, !code_units_app.
  - intros (l & d & t & -> & [Hl1 Hl2] & [Hd1 Hd2] & [Ht1 Ht2]).
    rewrite !code_units_app. rewrite <- code_units_nil in Hl1, Hd1, Ht1.
    repeat (constructor; try by apply matches_plus_class).
Qed.

(** X23: [$uuid] accepts exactly the strings that contain five groups of 8,
    4, 4, 4 and 12 lower-case hexadecimal digits joined by hyphens. *)
Theorem uuid_shape :
  forall s : string,
    v_uuid (VString s) = Normal true
    <-> exists pre a b c d e post : string,
          s = pre +:+ a +:+ "-" +:+ b +:+ "-" +:+ c +:+ "-" +:+ d +:+ "-" +:+ e
                +:+ post
          /\ hex_group 8 a /\ hex_group 4 b /\ hex_group 4 c /\ hex_group 4 d
          /\ hex_group 12 e.
Proof.
  intros s. unfold v_uuid. rewrite v_regexp_true. unfold found_in, hex_group.
  split.
  - intros (pre & m & post & E & Hm & _).
    apply matches_Cat_inv in Hm
      as (a & w1 & -> & Ha%matches_repeat_class & Hm).
    apply matches_Cat_inv in Hm as (h1 & w2 & -> & ->%matches_Chr_inv & Hm).
    apply matches_Cat_inv in Hm
      as (b & w3 & -> & Hb%matches_repeat_class & Hm).
    apply matches_Cat_inv in Hm as (h2 & w4 & -> & ->%matches_Chr_inv & Hm).
    apply matches_Cat_inv in Hm
      as (c & w5 & -> & Hc%matches_repeat_class & Hm).
    apply matches_Cat_inv in Hm as (h3 & w6 & -> & ->%matches_Chr_inv & Hm).
    apply matches_Cat_inv in Hm
      as (d & w7 & -> & Hd%matches_repeat_class & Hm).
    apply matches_Cat_inv in Hm
      as (h4 & e & -> & ->%matches_Chr_inv & He%matches_repeat_class).
    destruct (code_units_inv pre) as [pre' <-].
    destruct (code_units_inv a) as [a' <-].
    destruct (code_units_inv b) as [b' <-].
    destruct (code_units_inv c) as [c' <-].
    destruct (code_units_inv d) as [d' <-].
    destruct (code_units_inv e) as [e' <-].
    destruct (code_units_inv post) as [post' <-].
    exists pre', a', b', c', d', e', post'. split; [|done].
    apply code_units_inj. rewrite E, !code_units_app. simpl.
    by repeat (rewrite <- ?app_assoc; simpl; f_equal).
  - intros (pre & a & b & c & d & e & post & -> & Ha & Hb & Hc & Hd & He).
    exists (code_units pre),
      (code_units (a +:+ "-" +:+ b +:+ "-" +:+ c +:+ "-" +:+ d +:+ "-" +:+ e)),
      (code_units post).
    split; [|split; [|done]].
    + rewrite !code_units_app. simpl.
      by repeat (rewrite <- ?app_assoc; simpl; f_equal).
    + rewrite !code_units_app.
      repeat (constructor; try by apply matches_repeat_class).
Qed.

(** ** Instances of the further properties *)

(** [$const("A")] on its own value, and on a number. *)
Lemma const_accepts_its_value_witness :
  v_const (LString "A") (VString "A") = Normal true
  /\ typeof (num 1) <> typeof (literal_value (LString "A")).
Proof.
  split.
  - apply (proj1 (const_accepts_its_value (LString "A") VNull)). discriminate.
  - discriminate.
Defined.

(** A string against a range. *)
Lemma numberRange_inclusive_bounds_witness :
  v_numberRange {| min := Some (Finite 10); max := Some (Finite 20) |}
    (VString "15") = Normal false.
Proof.
  apply (proj2 (proj2 (proj2 (proj2
    (numberRange_inclusive_bounds 0 0 0 NaN
       {| min := Some (Finite 10); max := Some (Finite 20) |} (VString "15")))))).
  discriminate.
Defined.

(** [$numberRange({ min: 20, max: 10 })] on a number between the bounds. *)
Lemma numberRange_crossed_bounds_witness :
  v_numberRange {| min := Some (Finite 20); max := Some (Finite 10) |} (num 15)
  = Normal false.
Proof. apply numberRange_crossed_bounds. reflexivity. Defined.

(** [$union([$string, $number, thrower])] on a number. *)
Lemma union_short_circuits_witness :
  v_union ([v_string] ++ v_number :: [v_throwing]) (num 1) = Normal true.
Proof.
  apply union_short_circuits; [|reflexivity].
  constructor; [reflexivity | constructor].
Defined.

(** [$intersection([$string, thrower, $number])] on a number: [$string]
    rejects and the thrower is applied all the same. *)
Lemma intersection_runs_every_validator_witness :
  v_intersection ([v_string] ++ v_throwing :: [v_number]) (num 1) = Throw TypeError.
Proof.
  apply intersection_runs_every_validator; [|reflexivity].
  constructor; [by exists false | constructor].
Defined.


(** [$arrayLength({ min: 2, max: 4, child: $number })] on [[1, 2, 3]]. *)
Lemma arrayLength_is_array_then_range_witness :
  v_arrayLength
    {| al_min := Some (Finite 2); al_max := Some (Finite 4); al_child := v_number |}
    (VArray [num 1; num 2; num 3])
  = v_array v_number (VArray [num 1; num 2; num 3])
      &&& v_numberRange {| min := Some (Finite 2); max := Some (Finite 4) |}
            (VNumber (number_of_nat 3)).
Proof.
  apply (proj1 (arrayLength_is_array_then_range
    {| al_min := Some (Finite 2); al_max := Some (Finite 4); al_child := v_number |}
    (VArray [num 1; num 2; num 3])) [num 1; num 2; num 3]).
  reflexivity.
Defined.

(** A string and [null] against [$object] and [$record] with throwing
    validators. *)
Lemma composites_only_witness :
  (v_object sample_inherited [("name", v_throwing)] true (VString "A") = Normal false
   /\ v_record v_throwing (VString "A") = Normal false)
  /\ (v_object sample_inherited [("name", v_throwing)] true VNull = Normal false
      /\ v_record v_throwing VNull = Normal false).
Proof.
  split.
  - apply composites_only. left. discriminate.
  - apply composites_only. right. reflexivity.
Defined.

(** [{ name: "A", age: 1 }] passes exactly, hence inexactly. *)
Lemma exact_implies_inexact_witness :
  v_object sample_inherited (pure_shape name_and_age) false valid_object
  = Normal true.
Proof. apply exact_implies_inexact. vm_compute. reflexivity. Defined.

(** The shape [{ age, name }] against the shape [{ name, age }]. *)
Lemma object_shape_order_irrelevant_witness :
  v_object sample_inherited (pure_shape name_and_age) true extra_props_object
  = v_object sample_inherited
      (pure_shape [("age", is_number); ("name", is_string)]) true
      extra_props_object.
Proof. apply object_shape_order_irrelevant. apply Permutation_swap. Defined.

(** [{ name: $string }] and [{ age: $number }] against [{ age, name }]. *)
Lemma intersection_of_objects_merges_witness :
  v_intersection
    [v_object sample_inherited (pure_shape [("name", is_string)]) false;
     v_object sample_inherited (pure_shape [("age", is_number)]) false]
    extra_props_object
  = v_object sample_inherited
      (pure_shape [("age", is_number); ("name", is_string)]) false
      extra_props_object.
Proof.
  apply intersection_of_objects_merges.
  - decide_it.
  - apply Permutation_swap.
Defined.
